(** * hp-bot: the thread harvester and the Discord notifier

    A shallow embedding of [talent-channel-newest.py] (module [Harvester]),
    of [talent-channel.py] (module [Lister]) and of [notify.py] (modules
    [Notify] and [Delivery]), and the properties of the repository's
    specification that concern them.

    Python values that come out of [json.load] are modelled by the type
    [json]; a Python [dict] is a finite map ([gmap]) from strings to such
    values, so that two dicts are equal exactly when they have the same
    keys bound to the same values, as Python's [==] on dicts has it.
    A Python [str] is a list of code points: [len] is [length], a slice
    [s[:n]] is [take n s]. *)

From Stdlib Require Import ZArith String Ascii.
From stdpp Require Import gmap strings list sorting.

#[local] Set Warnings "-register-all,-clear-no-such-hyp".

(** ** Python values *)

(** A Python [str]: its code points. *)
Abbreviation pystr := (list N) (only parsing).

(** A literal of the source, given by its ASCII text. *)
Definition py (s : string) : pystr :=
  N_of_ascii <$> list_ascii_of_string s.

(** JSON numbers are the integers: a fractional number (a Python [float])
    is outside the model. *)
Inductive json : Type :=
  | JNull
  | JBool (b : bool)
  | JNum (n : Z)
  | JStr (s : pystr)
  | JArr (l : list json)
  | JObj (m : gmap pystr json).

(** A Python [dict] with [str] keys. *)
Abbreviation dict := (gmap pystr json) (only parsing).

(** Python's truth value of an object: [None], [False], [0], [''], [[]]
    and [{}] are false, everything else is true. *)
Definition truthy (v : json) : bool :=
  match v with
  | JNull => false
  | JBool b => b
  | JNum n => negb (n =? 0)%Z
  | JStr s => negb (bool_decide (s = []))
  | JArr l => negb (bool_decide (length l = 0%nat))
  | JObj m => negb (bool_decide (size m = 0%nat))
  end.

(** [a or b]. *)
Definition py_or (a b : json) : json := if truthy a then a else b.

(** [d.get(k)]: [None] for a missing key. *)
Definition get (d : dict) (k : pystr) : json := default JNull (d !! k).

(** [d.get(k, dflt)]. *)
Definition get_default (d : dict) (k : pystr) (dflt : json) : json :=
  default dflt (d !! k).

(** ** Exceptions *)

Inductive exn : Type :=
  | SystemExit
  | HTTPError
  | TypeError
  | AttributeError
  | KeyError
  | UnicodeDecodeError
  | UnicodeEncodeError.

(** The outcome of a computation that may raise. *)
Inductive outcome (A : Type) : Type :=
  | Done (a : A)
  | Raised (e : exn).
Arguments Done {A} a.
Arguments Raised {A} e.

#[export] Instance outcome_ret : MRet outcome := λ A a, Done a.
#[export] Instance outcome_bind : MBind outcome := λ A B f m,
  match m with
  | Done a => f a
  | Raised e => Raised e
  end.

Definition is_Done {A} (m : outcome A) : Prop := ∃ a, m = Done a.

(** [(v or {})] used as a dict: a false value gives the empty dict, a dict
    itself, and on any other value the following [.get] raises
    [AttributeError]. *)
Definition or_empty_dict (v : json) : outcome dict :=
  if truthy v then
    match v with
    | JObj m => Done m
    | _ => Raised AttributeError
    end
  else Done ∅.

(** ** Comparisons *)

(** The number a value is compared as: an [int], or a [bool], which Python
    compares as [0] or [1]. *)
Definition as_number (v : json) : option Z :=
  match v with
  | JNum n => Some n
  | JBool b => Some (if b then 1 else 0)%Z
  | _ => None
  end.

(** [a < b] on [str]: the order of the code points, a proper prefix being
    smaller. *)
Fixpoint str_ltb (a b : pystr) : bool :=
  match a, b with
  | _, [] => false
  | [], _ :: _ => true
  | x :: a', y :: b' => (x <? y)%N || ((x =? y)%N && str_ltb a' b')
  end.

(** [==] on two lists: the same length and equal items. *)
Fixpoint list_eqb {A} (eqb : A → A → bool) (l l' : list A) : bool :=
  match l, l' with
  | [], [] => true
  | x :: l, y :: l' => eqb x y && list_eqb eqb l l'
  | _, _ => false
  end.

(** [==] on two dicts: the same keys, bound to equal values. *)
Definition dict_eqb {A} (eqb : A → A → bool) (m m' : gmap pystr A) : bool :=
  map_fold (λ _ (b : bool) acc, b && acc) true
    (merge (λ x y,
       match x, y with
       | Some x, Some y => Some (eqb x y)
       | None, None => None
       | _, _ => Some false
       end) m m').

(** [a == b]: [True] equals [1] and [False] equals [0]; values of
    different kinds are different. *)
Fixpoint py_eq (a b : json) : bool :=
  match a, b with
  | JNull, JNull => true
  | JStr s, JStr t => bool_decide (s = t)
  | JArr l, JArr l' => list_eqb py_eq l l'
  | JObj m, JObj m' => dict_eqb py_eq m m'
  | (JNum _ | JBool _), (JNum _ | JBool _) =>
      bool_decide (as_number a = as_number b)
  | _, _ => false
  end.

(** [<] on two lists: the items at the first index at which they differ
    decide, by their own [<]; without such an index the shorter list is
    the smaller. *)
Fixpoint list_ltb {A} (eqb : A → A → bool) (ltb : A → A → option bool)
    (l l' : list A) : option bool :=
  match l, l' with
  | _, [] => Some false
  | [], _ :: _ => Some true
  | x :: l, y :: l' => if eqb x y then list_ltb eqb ltb l l' else ltb x y
  end.

(** [a < b], or [None] where Python raises [TypeError]: numbers compare
    with numbers, strings with strings, lists with lists; [None] and dicts
    compare with nothing. *)
Fixpoint py_lt (a b : json) : option bool :=
  match a, b with
  | JStr s, JStr t => Some (str_ltb s t)
  | JArr l, JArr l' => list_ltb py_eq py_lt l l'
  | (JNum _ | JBool _), (JNum _ | JBool _) =>
      m ← as_number a; n ← as_number b; Some (m <? n)%Z
  | _, _ => None
  end.

(** ** Sorting *)

(** A stable sort by insertion: [before x y] tells whether [x], which
    stood before [y] in the list, stays before it. *)
Section StableSort.
Context {A : Type} (before : A → A → bool).

Fixpoint insert_by (x : A) (l : list A) : list A :=
  match l with
  | [] => [x]
  | y :: l' => if before x y then x :: l else y :: insert_by x l'
  end.

Definition sort_by (l : list A) : list A := foldr insert_by [] l.

End StableSort.

Section PySort.
Context {A : Type} (key : A → json).

(** [key(x) < key(y)], where it is defined. *)
Definition key_lt (x y : A) : bool :=
  bool_decide (py_lt (key x) (key y) = Some true).

(** In an ascending sort an item stays before a later one unless the
    later one is smaller; with [reverse=True], unless it is greater. *)
Definition stays_before (reverse : bool) (x y : A) : bool :=
  negb (if reverse then key_lt x y else key_lt y x).

(** Every key can be compared with every other. *)
Definition comparable (l : list A) : bool :=
  forallb (λ x,
    forallb (λ y, bool_decide (is_Some (py_lt (key x) (key y)))) l) l.

(** [sorted(l, key=key, reverse=reverse)], and [l.sort(key=key,
    reverse=reverse)]: the sort is stable, also with [reverse=True]. A
    list of at most one item is not compared at all; in a longer one
    every item is compared with some other, and the sort raises
    [TypeError] as soon as it meets two keys that cannot be compared,
    which it does whenever there are two. *)
Definition py_sorted (reverse : bool) (l : list A) : outcome (list A) :=
  if bool_decide (length l ≤ 1) then Done l
  else if comparable l then Done (sort_by (stays_before reverse) l)
  else Raised TypeError.

End PySort.

(** ** Writing JSON *)

(** A surrogate code point: a [str] that holds one cannot be encoded in
    UTF-8. *)
Definition surrogate (c : N) : bool := ((55296 <=? c) && (c <=? 57343))%N.

Definition str_encodable (s : pystr) : bool :=
  forallb (λ c, negb (surrogate c)) s.

(** Whether the text [json.dump(v, f, ensure_ascii=False)] produces can
    be written to a file opened with [encoding="utf-8"]: every string in
    [v], the keys of its dicts among them, can be encoded. *)
Fixpoint encodable (v : json) : bool :=
  match v with
  | JStr s => str_encodable s
  | JArr l => forallb encodable l
  | JObj m =>
      map_fold (λ k x acc, str_encodable k && encodable x && acc) true m
  | _ => true
  end.



(** ** Induction on values *)

(** The size of a value, by which the lemmas below go through the items
    of lists and the values of dicts. *)
Fixpoint json_size (v : json) : nat :=
  match v with
  | JArr l => S (foldr (λ x n, json_size x + n) 0 l)
  | JObj m => S (map_fold (λ _ x n, json_size x + n) 0 m)
  | _ => 1
  end.

Lemma json_size_elem (l : list json) (x : json) :
  x ∈ l → json_size x < json_size (JArr l).
Proof.
  cbn [json_size]. induction l as [|y l IH]; [by intros ?%elem_of_nil|].
  cbn [foldr]. intros [->|Hx]%elem_of_cons; [lia|]. specialize (IH Hx). lia.
Qed.

Lemma json_size_lookup (m : gmap (list N) json) (k : list N) (x : json) :
  m !! k = Some x → json_size x < json_size (JObj m).
Proof.
  intros Hk. cbn [json_size].
  rewrite (map_fold_delete_L _ _ k x m); [lia| |done].
  intros. lia.
Qed.

Lemma json_ind' (P : json → Prop) :
  P JNull → (∀ b, P (JBool b)) → (∀ n, P (JNum n)) → (∀ s, P (JStr s)) →
  (∀ l, Forall P l → P (JArr l)) →
  (∀ m, map_Forall (λ _, P) m → P (JObj m)) →
  ∀ v, P v.
Proof.
  intros Hnull Hbool Hnum Hstr Harr Hobj v.
  remember (json_size v) as n eqn:Hn. revert v Hn.
  induction (lt_wf n) as [n _ IH]. intros v ->.
  destruct v as [| | | |l|m]; auto.
  - apply Harr, Forall_forall. intros x Hx.
    eapply IH; [|done]. by apply json_size_elem.
  - apply Hobj. intros k x Hk.
    eapply IH; [|done]. by eapply json_size_lookup.
Qed.

(** ** The order of strings *)

Lemma str_ltb_irrefl (a : pystr) : str_ltb a a = false.
Proof.
  induction a as [|x a IH]; simpl; [done|].
  by rewrite N.ltb_irrefl, N.eqb_refl, IH.
Qed.

Lemma str_ltb_asym (a b : pystr) : str_ltb a b = true → str_ltb b a = false.
Proof.
  revert b. induction a as [|x a IH]; intros [|y b]; simpl; try done.
  destruct (N.ltb_spec x y), (N.ltb_spec y x), (N.eqb_spec x y),
    (N.eqb_spec y x); simpl; try lia; try done.
  apply IH.
Qed.

(** [a <= b] and [b <= c] give [a <= c]. *)
Lemma str_ltb_negtrans (a b c : pystr) :
  str_ltb b a = false → str_ltb c b = false → str_ltb c a = false.
Proof.
  revert b c. induction a as [|x a IH]; intros [|y b] [|z c]; simpl; try done.
  destruct (N.ltb_spec y x), (N.ltb_spec z y), (N.ltb_spec z x),
    (N.eqb_spec y x), (N.eqb_spec z y), (N.eqb_spec z x);
    simpl; try lia; try done.
  apply IH.
Qed.

Lemma str_ltb_total (a b : pystr) :
  str_ltb a b = false → str_ltb b a = false → a = b.
Proof.
  revert b. induction a as [|x a IH]; intros [|y b]; simpl; try done.
  destruct (N.ltb_spec x y), (N.ltb_spec y x), (N.eqb_spec x y),
    (N.eqb_spec y x); simpl; try lia; try done.
  intros. f_equal; [done|]. by apply IH.
Qed.

(** ** Equality of values *)

Lemma dict_eqb_spec {A} (eqb : A → A → bool) (m m' : gmap (list N) A) :
  dict_eqb eqb m m' = true ↔
    ∀ k, match m !! k, m' !! k with
         | Some x, Some y => eqb x y = true
         | None, None => True
         | _, _ => False
         end.
Proof.
  unfold dict_eqb.
  match goal with |- map_fold ?f true ?M = true ↔ _ =>
    assert (map_fold f true M = true ↔ map_Forall (λ _ b, b = true) M) as ->
  end.
  { rewrite map_fold_foldr, map_Forall_to_list.
    induction (map_to_list _) as [|[k b] L IH]; simpl.
    - split; [constructor|done].
    - rewrite Forall_cons, andb_true_iff, IH. done. }
  unfold map_Forall. setoid_rewrite lookup_merge.
  split; intros H k.
  - specialize (H k). destruct (m !! k), (m' !! k); simpl in *; auto.
    + by specialize (H _ eq_refl).
    + by specialize (H _ eq_refl).
  - specialize (H k). intros b.
    destruct (m !! k), (m' !! k); simpl in *; try done; by intros [= <-].
Qed.

Lemma py_eq_sym (a b : json) : py_eq a b = py_eq b a.
Proof.
  revert b. induction a as [|b0|n|s|l IH|m IH] using json_ind';
    intros [|b1|n1|s1|l1|m1]; try reflexivity.
  - simpl. apply bool_decide_ext. by split.
  - simpl. apply bool_decide_ext. by split.
  - simpl. apply bool_decide_ext. by split.
  - simpl. apply bool_decide_ext. by split.
  - simpl. apply bool_decide_ext. by split.
  - cbn [py_eq]. revert l1.
    induction IH as [|x l Hx _ IHl]; intros [|y l1]; try reflexivity.
    cbn [list_eqb]. by rewrite Hx, IHl.
  - cbn [py_eq]. apply eq_true_iff_eq. rewrite !dict_eqb_spec.
    split; intros H k; specialize (H k);
      destruct (m !! k) as [x|] eqn:Hx, (m1 !! k) as [y|] eqn:Hy; try done.
    + rewrite <- (IH k x Hx). done.
    + rewrite (IH k x Hx). done.
Qed.

Lemma py_eq_trans (a b c : json) :
  py_eq a b = true → py_eq b c = true → py_eq a c = true.
Proof.
  revert b c. induction a as [|b0|n|s|l IH|m IH] using json_ind';
    intros [|b1|n1|s1|l1|m1] [|b2|n2|s2|l2|m2]; try done;
    cbn [py_eq]; rewrite ?bool_decide_eq_true; try congruence.
  - revert l1 l2.
    induction IH as [|x l Hx _ IHl]; intros [|y l1] [|z l2]; try done.
    cbn [list_eqb]. rewrite !andb_true_iff. intros [? ?] [? ?].
    split; [by eapply Hx | by eapply IHl].
  - rewrite !dict_eqb_spec. intros H1 H2 k.
    specialize (H1 k). specialize (H2 k).
    destruct (m !! k) as [x|] eqn:Hx, (m1 !! k) as [y|], (m2 !! k) as [z|];
      try done.
    by eapply (IH k x Hx).
Qed.

Lemma py_eq_compat (a a' b : json) :
  py_eq a a' = true → py_eq a b = py_eq a' b.
Proof.
  intros Ha. apply eq_true_iff_eq. split; intros Hb.
  - eapply py_eq_trans; [|exact Hb]. by rewrite py_eq_sym.
  - by eapply py_eq_trans.
Qed.

(** ** The order of values *)

(** Equal values stand in the same relations. *)
Lemma py_lt_compat_l (a a' b : json) :
  py_eq a a' = true → py_lt a b = py_lt a' b.
Proof.
  revert a' b. induction a as [|b0|n|s|l IH|m IH] using json_ind';
    intros [|b1|n1|s1|l1|m1] b; try done; cbn [py_eq];
    rewrite ?bool_decide_eq_true.
  - intros Heq. destruct b; try done; simpl in *; by injection Heq as ->.
  - intros Heq. destruct b; try done; simpl in *; by injection Heq as ->.
  - intros Heq. destruct b; try done; simpl in *; by injection Heq as ->.
  - intros Heq. destruct b; try done; simpl in *; by injection Heq as ->.
  - by intros ->.
  - destruct b as [| | | |l'|]; try done. cbn [py_lt]. revert l1 l'.
    induction IH as [|x l Hx _ IHl]; intros [|x1 l1] [|y l']; try done.
    cbn [list_eqb list_ltb]. intros [Hxx Hll]%andb_true_iff.
    rewrite (py_eq_compat _ _ _ Hxx). destruct (py_eq x1 y); [by apply IHl|].
    by apply Hx.
Qed.

Lemma py_lt_compat_r (a b b' : json) :
  py_eq b b' = true → py_lt a b = py_lt a b'.
Proof.
  revert b b'. induction a as [|b0|n|s|l IH|m IH] using json_ind';
    intros b b' Heq; try (by destruct b, b').
  - destruct b, b'; try done; simpl in *;
      apply bool_decide_eq_true in Heq; by injection Heq as ->.
  - destruct b, b'; try done; simpl in *;
      apply bool_decide_eq_true in Heq; by injection Heq as ->.
  - destruct b, b'; try done; simpl in *.
    by apply bool_decide_eq_true in Heq as ->.
  - destruct b as [| | | |l1|], b' as [| | | |l2|]; try done.
    cbn [py_eq py_lt] in *. revert l1 l2 Heq.
    induction IH as [|x l Hx _ IHl]; intros [|y1 l1] [|y2 l2]; try done.
    cbn [list_eqb list_ltb]. intros [Hyy Hll]%andb_true_iff.
    rewrite (py_eq_sym x y1), (py_eq_compat _ _ _ Hyy), <- (py_eq_sym x y2).
    destruct (py_eq x y2); [by apply IHl|]. by apply Hx.
Qed.

Lemma py_lt_asym (a b : json) :
  py_lt a b = Some true → py_lt b a = Some false.
Proof.
  revert b. induction a as [|b0|n|s|l IH|m IH] using json_ind';
    intros [|b1|n1|s1|l1|m1]; try done; cbn [py_lt].
  - simpl. intros [= H]. f_equal. destruct b0, b1; done.
  - simpl. intros [= H]. f_equal. destruct b0; lia.
  - simpl. intros [= H]. f_equal. destruct b1; lia.
  - simpl. intros [= H]. f_equal. lia.
  - intros [= H]. f_equal. by apply str_ltb_asym.
  - revert l1. induction IH as [|x l Hx _ IHl]; intros [|y l1]; try done.
    cbn [list_ltb]. rewrite (py_eq_sym y x).
    destruct (py_eq x y); [apply IHl | apply Hx].
Qed.

(** Two values that can be compared and are not equal are in order one
    way or the other. *)
Lemma py_lt_connex (a b : json) :
  py_lt a b = Some false → py_eq a b = false → py_lt b a = Some true.
Proof.
  revert b. induction a as [|b0|n|s|l IH|m IH] using json_ind';
    intros [|b1|n1|s1|l1|m1]; try done; cbn [py_lt py_eq];
    rewrite ?bool_decide_eq_false.
  - simpl. intros [= H] Hne. f_equal. destruct b0, b1; done.
  - simpl. intros [= H] Hne. f_equal. apply Z.ltb_lt. apply Z.ltb_ge in H.
    destruct b0; [assert (n1 ≠ 1%Z) by congruence
                 |assert (n1 ≠ 0%Z) by congruence]; lia.
  - simpl. intros [= H] Hne. f_equal. apply Z.ltb_lt. apply Z.ltb_ge in H.
    destruct b1; [assert (n ≠ 1%Z) by congruence
                 |assert (n ≠ 0%Z) by congruence]; lia.
  - simpl. intros [= H] Hne. f_equal. apply Z.ltb_lt. apply Z.ltb_ge in H.
    assert (n ≠ n1) by congruence. lia.
  - intros [= H] Hne. f_equal.
    destruct (str_ltb s1 s) eqn:H'; [done|].
    destruct Hne. by apply str_ltb_total.
  - revert l1. induction IH as [|x l Hx _ IHl]; intros [|y l1]; try done.
    cbn [list_ltb list_eqb]. rewrite (py_eq_sym y x).
    destruct (py_eq x y) eqn:Hxy; [apply IHl|].
    intros ? _. by apply Hx.
Qed.

(** [a >= b] and [b >= c] exclude [a < c]. *)
Lemma py_lt_negtrans (a b c : json) :
  py_lt a b = Some false → py_lt b c = Some false → py_lt a c ≠ Some true.
Proof.
  revert b c. induction a as [|b0|n|s|l IH|m IH] using json_ind';
    intros [|b1|n1|s1|l1|m1] [|b2|n2|s2|l2|m2]; try done; cbn [py_lt].
  1-8: simpl; intros [= H1] [= H2] [= H3];
    repeat match goal with b : bool |- _ => destruct b end; lia.
  - intros [= H1] [= H2] [= H3].
    by rewrite (str_ltb_negtrans _ _ _ H2 H1) in H3.
  - revert l1 l2.
    induction IH as [|x l Hx _ IHl]; intros [|y l1] [|z l2]; try done.
    cbn [list_ltb].
    destruct (py_eq x y) eqn:Hxy, (py_eq y z) eqn:Hyz.
    + rewrite (py_eq_trans _ _ _ Hxy Hyz). apply IHl.
    + rewrite (py_eq_compat x y z Hxy), Hyz.
      rewrite (py_lt_compat_l x y z Hxy). congruence.
    + assert (py_eq z y = true) as Hzy by (by rewrite py_eq_sym).
      rewrite (py_eq_sym x z), (py_eq_compat z y x Hzy), (py_eq_sym y x), Hxy.
      rewrite (py_lt_compat_r x z y Hzy). congruence.
    + intros H1 H2. destruct (py_eq x z) eqn:Hxz; [|by apply (Hx y z)].
      pose proof (py_lt_connex _ _ H1 Hxy) as H3.
      rewrite py_eq_sym in Hxz.
      rewrite (py_lt_compat_r y z x Hxz) in H2. congruence.
Qed.


(** ** The stable sort *)

Lemma StronglySorted_sublist {A} (R : relation A) (l1 l2 : list A) :
  l1 `sublist_of` l2 → StronglySorted R l2 → StronglySorted R l1.
Proof.
  induction 1 as [|x l1 l2 Hsub IH|x l1 l2 Hsub IH]; [done|..];
    rewrite !StronglySorted_cons; intros [Hx Hl2].
  - split; [|by apply IH]. apply Forall_forall. intros y Hy.
    eapply Forall_forall in Hx; [exact Hx|]. by eapply elem_of_sublist.
  - by apply IH.
Qed.

Lemma StronglySorted_impl_elem {A} (R R' : relation A) (l : list A) :
  (∀ x y, x ∈ l → y ∈ l → R x y → R' x y) →
  StronglySorted R l → StronglySorted R' l.
Proof.
  intros Himpl Hsorted. induction Hsorted as [|x l Hl IH Hx]; [constructor|].
  constructor.
  - apply IH. intros y z Hy Hz. apply Himpl; by apply list_elem_of_further.
  - apply Forall_forall. intros y Hy. apply Himpl;
      [apply list_elem_of_here | by apply list_elem_of_further |].
    by eapply Forall_forall in Hx.
Qed.

Section StableSortFacts.
Context {A : Type} (before : A → A → bool).

(** [x] stays before [y]. *)
Let stays (x y : A) : Prop := before x y = true.

Lemma insert_by_perm (x : A) (l : list A) : insert_by before x l ≡ₚ x :: l.
Proof.
  induction l as [|y l IH]; simpl; [done|].
  destruct (before x y); [done|].
  rewrite IH. apply Permutation_swap.
Qed.

Lemma sort_by_perm (l : list A) : sort_by before l ≡ₚ l.
Proof.
  induction l as [|x l IH]; simpl; [done|].
  by rewrite insert_by_perm, IH.
Qed.

Lemma sort_by_short (l : list A) : length l ≤ 1 → sort_by before l = l.
Proof. destruct l as [|x [|y l]]; simpl; [done..|lia]. Qed.

Lemma sort_by_of_sorted (l : list A) :
  StronglySorted stays l → sort_by before l = l.
Proof.
  induction 1 as [|x l Hl IH Hx]; [done|].
  change (insert_by before x (sort_by before l) = x :: l). rewrite IH.
  destruct Hx as [|y l Hy _]; simpl; [done|].
  unfold stays in Hy. by rewrite Hy.
Qed.

(** The sort is stable: items of which each stays before the other come
    out in the order in which they went in. *)
Lemma insert_by_filter (P : A → Prop) `{∀ x, Decision (P x)}
    (x : A) (l : list A) :
  (∀ y, y ∈ l → P x → P y → before x y = true) →
  filter P (insert_by before x l) = filter P (x :: l).
Proof.
  induction l as [|y l IH]; intros Htie; simpl; [done|].
  destruct (before x y) eqn:Hxy; [done|].
  assert (filter P (insert_by before x l) = filter P (x :: l)) as IH'.
  { apply IH. intros z Hz. apply Htie. by apply list_elem_of_further. }
  assert (P x → P y → False) as Hnot.
  { intros Hx Hy.
    rewrite (Htie y (list_elem_of_here _ _) Hx Hy) in Hxy. discriminate. }
  rewrite (filter_cons _ y), IH', !(filter_cons _ x), (filter_cons _ y).
  destruct (decide (P x)), (decide (P y)); try done. by destruct Hnot.
Qed.

Lemma sort_by_stable (P : A → Prop) `{∀ x, Decision (P x)} (l : list A) :
  (∀ x y, x ∈ l → y ∈ l → P x → P y → before x y = true) →
  filter P (sort_by before l) = filter P l.
Proof.
  induction l as [|x l IH]; intros Htie; [done|].
  change (sort_by before (x :: l))
    with (insert_by before x (sort_by before l)).
  rewrite insert_by_filter.
  - rewrite !(filter_cons _ x), IH; [done|].
    intros y z Hy Hz. apply Htie; by apply list_elem_of_further.
  - intros y Hy. rewrite sort_by_perm in Hy.
    apply Htie; [apply list_elem_of_here | by apply list_elem_of_further].
Qed.

(** The sort sorts, where [before] is total and transitive. *)
Section Sorted.
Context (D : A → Prop).
Hypothesis before_total :
  ∀ x y, D x → D y → before x y = false → before y x = true.
Hypothesis before_trans :
  ∀ x y z, D x → D y → D z →
    before x y = true → before y z = true → before x z = true.

Lemma insert_by_sorted (x : A) (l : list A) :
  D x → Forall D l →
  StronglySorted stays l → StronglySorted stays (insert_by before x l).
Proof.
  intros Hx Hl Hsorted.
  induction Hsorted as [|y l Hsorted IH Hy]; simpl.
  - repeat constructor.
  - apply Forall_cons in Hl as [HDy Hl].
    destruct (before x y) eqn:Hxy.
    + constructor; [by constructor|].
      constructor; [done|].
      apply Forall_forall. intros z Hz.
      eapply (before_trans x y z); [done..| |done|].
      * by eapply Forall_forall in Hl.
      * by eapply Forall_forall in Hy.
    + constructor; [by apply IH|].
      rewrite insert_by_perm. constructor; [|done].
      by apply before_total.
Qed.

Lemma sort_by_sorted (l : list A) :
  Forall D l → StronglySorted stays (sort_by before l).
Proof.
  induction 1 as [|x l Hx Hl IH]; simpl; [constructor|].
  apply insert_by_sorted; [done| |done]. by rewrite sort_by_perm.
Qed.

End Sorted.

End StableSortFacts.

(** ** Python's sort *)

Section PySortFacts.
Context {A : Type} (key : A → json).

Lemma comparable_spec (l : list A) :
  comparable key l = true ↔
    ∀ x y, x ∈ l → y ∈ l → is_Some (py_lt (key x) (key y)).
Proof.
  unfold comparable. rewrite forallb_forall. split.
  - intros Hall x y Hx Hy.
    apply list_elem_of_In, Hall in Hx. rewrite forallb_forall in Hx.
    apply list_elem_of_In, Hx in Hy. by apply bool_decide_eq_true in Hy.
  - intros Hall x Hx. apply forallb_forall. intros y Hy.
    apply bool_decide_eq_true, Hall; by apply list_elem_of_In.
Qed.

Lemma comparable_sublist (l l' : list A) :
  (∀ x, x ∈ l' → x ∈ l) → comparable key l = true → comparable key l' = true.
Proof. rewrite !comparable_spec. intros Hsub Hl x y Hx Hy. by apply Hl; apply Hsub. Qed.

Lemma stays_before_total (reverse : bool) (x y : A) :
  stays_before key reverse x y = false → stays_before key reverse y x = true.
Proof.
  unfold stays_before, key_lt. intros Hxy. apply negb_false_iff in Hxy.
  apply negb_true_iff.
  destruct reverse; apply bool_decide_eq_true, py_lt_asym in Hxy;
    apply bool_decide_eq_false; congruence.
Qed.

Lemma stays_before_trans (reverse : bool) (x y z : A) :
  is_Some (py_lt (key x) (key y)) → is_Some (py_lt (key y) (key x)) →
  is_Some (py_lt (key y) (key z)) → is_Some (py_lt (key z) (key y)) →
  stays_before key reverse x y = true → stays_before key reverse y z = true →
  stays_before key reverse x z = true.
Proof.
  unfold stays_before, key_lt.
  intros [b1 H1] [b2 H2] [b3 H3] [b4 H4].
  rewrite !negb_true_iff.
  destruct reverse; rewrite !bool_decide_eq_false; intros Hxy Hyz.
  - apply (py_lt_negtrans _ (key y)).
    + rewrite H1 in *. by destruct b1.
    + rewrite H3 in *. by destruct b3.
  - apply (py_lt_negtrans _ (key y)).
    + rewrite H4 in *. by destruct b4.
    + rewrite H2 in *. by destruct b2.
Qed.

Lemma py_sorted_Done (reverse : bool) (l l' : list A) :
  py_sorted key reverse l = Done l' →
  l' = sort_by (stays_before key reverse) l ∧
  (length l ≤ 1 ∨ comparable key l = true).
Proof.
  unfold py_sorted. case_bool_decide as Hlen.
  - intros [= <-]. split; [by rewrite sort_by_short|by left].
  - destruct (comparable key l) eqn:Hcmp; [|done].
    intros [= <-]. split; [done|by right].
Qed.

Lemma py_sorted_Raised (reverse : bool) (l : list A) (e : exn) :
  py_sorted key reverse l = Raised e →
  e = TypeError ∧ 1 < length l ∧ comparable key l = false.
Proof.
  unfold py_sorted. case_bool_decide as Hlen; [done|].
  destruct (comparable key l); [done|]. intros [= <-].
  split; [done|]. split; [lia|done].
Qed.

Lemma py_sorted_comparable (reverse : bool) (l : list A) :
  comparable key l = true →
  py_sorted key reverse l = Done (sort_by (stays_before key reverse) l).
Proof.
  intros Hcmp. unfold py_sorted. rewrite Hcmp.
  case_bool_decide; [|done]. by rewrite sort_by_short.
Qed.

Lemma py_sorted_perm (reverse : bool) (l l' : list A) :
  py_sorted key reverse l = Done l' → l' ≡ₚ l.
Proof. intros [-> _]%py_sorted_Done. apply sort_by_perm. Qed.

(** What the sort returns is sorted: every item stays before those that
    follow it. *)
Lemma py_sorted_sorted (reverse : bool) (l l' : list A) :
  py_sorted key reverse l = Done l' →
  StronglySorted (λ x y, stays_before key reverse x y = true) l'.
Proof.
  intros [-> [Hlen|Hcmp]]%py_sorted_Done.
  - rewrite sort_by_short by done.
    destruct l as [|x [|y l]]; [repeat constructor..|simpl in Hlen; lia].
  - rewrite comparable_spec in Hcmp.
    apply (sort_by_sorted _ (λ x, x ∈ l)).
    + intros x y _ _. apply stays_before_total.
    + intros x y z Hx Hy Hz. apply stays_before_trans; by apply Hcmp.
    + by apply Forall_forall.
Qed.

(** Sorting a part of a sorted list, in the order of the list, succeeds
    and changes nothing. *)
Lemma py_sorted_sublist (reverse : bool) (l l' kept : list A) :
  py_sorted key reverse l = Done l' →
  kept `sublist_of` l' →
  py_sorted key reverse kept = Done kept.
Proof.
  intros Hsorted Hsub.
  pose proof (py_sorted_sorted _ _ _ Hsorted) as Hl'.
  pose proof (StronglySorted_sublist _ _ _ Hsub Hl') as Hkept.
  unfold py_sorted. case_bool_decide as Hlen; [done|].
  apply py_sorted_Done in Hsorted as [-> [Hshort|Hcmp]].
  - apply sublist_length in Hsub.
    rewrite sort_by_short in Hsub by done. lia.
  - rewrite (comparable_sublist l kept); [|
      |done].
    + by rewrite sort_by_of_sorted.
    + intros x Hx. eapply elem_of_sublist in Hx; [|exact Hsub].
      by rewrite sort_by_perm in Hx.
Qed.

Lemma py_sorted_stable (reverse : bool) (l l' : list A)
    (P : A → Prop) `{∀ x, Decision (P x)} :
  py_sorted key reverse l = Done l' →
  (∀ x y, x ∈ l → y ∈ l → P x → P y → stays_before key reverse x y = true) →
  filter P l' = filter P l.
Proof. intros [-> _]%py_sorted_Done Htie. by apply sort_by_stable. Qed.

(** *** Keys that are numbers, keys that are strings *)

Lemma key_lt_numbers (x y : A) (m n : Z) :
  as_number (key x) = Some m → as_number (key y) = Some n →
  py_lt (key x) (key y) = Some (m <? n)%Z.
Proof.
  intros Hx Hy.
  destruct (key x) as [| | | | |], (key y) as [| | | | |]; try done;
    simpl in *; by injection Hx as <-; injection Hy as <-.
Qed.

Lemma comparable_numbers (l : list A) :
  Forall (λ x, is_Some (as_number (key x))) l → comparable key l = true.
Proof.
  intros Hall. apply comparable_spec. intros x y Hx Hy.
  assert (is_Some (as_number (key x))) as [m Hm]
    by (by eapply Forall_forall in Hall).
  assert (is_Some (as_number (key y))) as [n Hn]
    by (by eapply Forall_forall in Hall).
  rewrite (key_lt_numbers _ _ _ _ Hm Hn). by eexists.
Qed.

Lemma comparable_strings (l : list A) :
  Forall (λ x, ∃ s, key x = JStr s) l → comparable key l = true.
Proof.
  intros Hall. apply comparable_spec. intros x y Hx Hy.
  assert (∃ s, key x = JStr s) as [s Hs]
    by (by eapply Forall_forall in Hall).
  assert (∃ t, key y = JStr t) as [t Ht]
    by (by eapply Forall_forall in Hall).
  rewrite Hs, Ht. by eexists.
Qed.

End PySortFacts.

(** ** The harvester, [talent-channel-newest.py] *)

Module Harvester.

(** A Thread of the remote API: an open record. *)
Abbreviation Thread := (gmap pystr json) (only parsing).

(** The keys [_sanitize_thread] pops. *)
Definition volatile_fields : list pystr :=
  [py "updated_at"; py "reaction_total"; py "reply_count";
   py "is_favorite"; py "user_reacted_count"].

(** [_sanitize_thread]: a copy of the dict, then five [pop(key, None)],
    each of which removes the key when it is there and does nothing
    otherwise. *)
Definition _sanitize_thread (t : Thread) : Thread :=
  let sanitized := t in
  let sanitized := delete (py "updated_at") sanitized in
  let sanitized := delete (py "reaction_total") sanitized in
  let sanitized := delete (py "reply_count") sanitized in
  let sanitized := delete (py "is_favorite") sanitized in
  let sanitized := delete (py "user_reacted_count") sanitized in
  sanitized.

(** *** Pagination *)

(** A response of the thread endpoint: [{items: [...], next_cursor?: str}].
    Either field may be missing (or [null]). *)
Record page : Type := Page {
  items : option (list Thread);
  next_cursor : option pystr;
}.

(** [data.get("items") or []]. *)
Definition page_items (data : page) : list Thread := default [] (items data).

(** The truth value of a cursor ([str | None]). *)
Definition cursor_truthy (cursor : option pystr) : bool :=
  match cursor with
  | Some (_ :: _) => true
  | _ => false
  end.

(** The [cursor] parameter of a request: [fetch_newest_threads] sends one
    only [if cursor]. *)
Definition cursor_param (cursor : option pystr) : option pystr :=
  if cursor_truthy cursor then cursor else None.

(** How a run of the generator ends: it returns, a request raises, or the
    remote end has sent no (further) response and the request is pending. *)
Inductive fetch_end : Type :=
  | Exhausted
  | Failed (e : exn)
  | Waiting.

(** What a run of [iter_all_threads] does: the items it yields, in order,
    the [cursor] parameter of each request it sends, in order, and how it
    ends. *)
Record fetch_trace : Type := FetchTrace {
  yielded : list Thread;
  requests : list (option pystr);
  ending : fetch_end;
}.

(** One more round of the loop in front of a trace. *)
Definition round (param : option pystr) (its : list Thread) (tr : fetch_trace)
    : fetch_trace :=
  FetchTrace (its ++ yielded tr) (param :: requests tr) (ending tr).

(** [iter_all_threads], against the responses the remote end gives to the
    successive requests of this channel ([fetch_newest_threads] returns
    the parsed body, or raises on an HTTP error status). *)
Fixpoint iter_all_threads (responses : list (outcome page))
    (cursor : option pystr) : fetch_trace :=
  match responses with
  | [] => FetchTrace [] [cursor_param cursor] Waiting
  | Raised e :: _ => FetchTrace [] [cursor_param cursor] (Failed e)
  | Done data :: responses =>
      match page_items data with
      | [] => FetchTrace [] [cursor_param cursor] Exhausted
      | (_ :: _) as its =>
          if cursor_truthy (next_cursor data)
          then round (cursor_param cursor) its
                 (iter_all_threads responses (next_cursor data))
          else FetchTrace its [cursor_param cursor] Exhausted
      end
  end.

(** A page after which the loop goes on: it has items and a cursor. *)
Definition continues (data : page) : Prop :=
  page_items data ≠ [] ∧ cursor_truthy (next_cursor data) = true.

(** *** Collecting the threads of one channel *)

(** The unit of the harvest file: the dict
    [{"channel_id", "channel_name", "thread_id", "thread"}] which the
    collector builds. *)
Record HarvestEntry : Type := Entry {
  channel_id : json;
  channel_name : json;
  thread_id : json;
  thread : Thread;
}.

(** The body of the loop over the fetched threads: a thread whose [id] is
    missing or false is skipped, any other is sanitized and recorded. *)
Definition harvest_entry (channel_id channel_name : json) (t : Thread)
    : option HarvestEntry :=
  let thread_id := get_default t (py "id") (JStr []) in
  if truthy thread_id
  then Some (Entry channel_id channel_name thread_id (_sanitize_thread t))
  else None.

(** [_collect_threads_for_channel_sync], against the responses of the
    remote end for this channel. [None]: the task is still waiting for a
    response. *)
Definition _collect_threads_for_channel_sync
    (responses : list (outcome page)) (channel_id channel_name : json)
    (all_threads : bool) : option (outcome (list HarvestEntry)) :=
  if all_threads then
    let tr := iter_all_threads responses None in
    match ending tr with
    | Exhausted =>
        Some (Done (omap (harvest_entry channel_id channel_name) (yielded tr)))
    | Failed e => Some (Raised e)
    | Waiting => None
    end
  else
    match responses with
    | [] => None
    | Raised e :: _ => Some (Raised e)
    | Done data :: _ =>
        Some (Done (omap (harvest_entry channel_id channel_name)
                      (page_items data)))
    end.


(** *** Merge and sort *)

(** The sort key, [(row.get("thread") or {}).get("created_at", 0)]. The
    [thread] of an entry is the dict the collector stored, so that the
    [or {}] only replaces an empty dict by an empty dict. *)
Definition created_at_key (row : HarvestEntry) : json :=
  get_default (thread row) (py "created_at") (JNum 0).

(** The number a numeric key is compared as. *)
Definition key_number (row : HarvestEntry) : Z :=
  default 0%Z (as_number (created_at_key row)).

(** [rows.sort(key=lambda row: (row.get("thread") or {}).get("created_at", 0),
    reverse=True)]. *)
Definition sort_by_created_at (rows : list HarvestEntry)
    : outcome (list HarvestEntry) :=
  py_sorted created_at_key true rows.

(** *** The previous harvest and the new threads *)

(** A JSON file on disk: absent, present with text that is not JSON,
    holding an array of objects, or present with bytes that are not UTF-8
    text. *)
Inductive file : Type :=
  | Missing
  | Malformed
  | Rows (rows : list dict)
  | Undecodable.

(** The body of the loop over the rows of the previous harvest: a
    [thread_id] that is a non-empty [str] is added to the set. *)
Definition add_thread_id (existing_thread_ids : gset pystr) (row : dict)
    : gset pystr :=
  match get row (py "thread_id") with
  | JStr (c :: s) => {[ c :: s ]} ∪ existing_thread_ids
  | _ => existing_thread_ids
  end.

(** The known thread ids: the loop over the previous harvest, or the
    empty set when [open] raises [FileNotFoundError] or [json.load] raises
    [JSONDecodeError]. Reading a file that is not UTF-8 text raises
    [UnicodeDecodeError], which is neither of the two and is not caught. *)
Definition load_existing_thread_ids (previous : file)
    : outcome (gset pystr) :=
  match previous with
  | Rows previous_results => Done (foldl add_thread_id ∅ previous_results)
  | Missing => Done ∅
  | Malformed => Done ∅
  | Undecodable => Raised UnicodeDecodeError
  end.

(** [v not in ids] for a set of strings: a list or a dict cannot be hashed
    and raises [TypeError]; a value that is not a string is in no set of
    strings. *)
Definition not_in (v : json) (ids : gset pystr) : outcome bool :=
  match v with
  | JStr s => Done (bool_decide (s ∉ ids))
  | JArr _ | JObj _ => Raised TypeError
  | _ => Done true
  end.

(** [[row for row in results if row.get("thread_id") not in ids]]. *)
Fixpoint rows_not_in (ids : gset pystr) (results : list HarvestEntry)
    : outcome (list HarvestEntry) :=
  match results with
  | [] => Done []
  | row :: results =>
      keep ← not_in (thread_id row) ids;
      rest ← rows_not_in ids results;
      Done (if keep : bool then row :: rest else rest)
  end.

(** The new-items list: the filter, then the sort. *)
Definition new_results (ids : gset pystr) (results : list HarvestEntry)
    : outcome (list HarvestEntry) :=
  rows_not_in ids results ≫= sort_by_created_at.

(** *** The run *)

(** The entry as [json.dump] writes it. *)
Definition entry_row (e : HarvestEntry) : dict :=
  <[py "channel_id" := channel_id e]>
    (<[py "channel_name" := channel_name e]>
      (<[py "thread_id" := thread_id e]>
        (<[py "thread" := JObj (thread e)]> ∅))).

(** The two files the harvester writes: [talent-channel-newest.json] and
    [new.json]. *)
Record files : Type := Files {
  newest_json : file;
  new_json : file;
}.

(** [with open(path, "w", encoding="utf-8") as f:
    json.dump(rows, f, ensure_ascii=False, indent=2)]. [open] empties the
    file, and the text is written piece by piece: a string that cannot be
    encoded raises [UnicodeEncodeError] and leaves the beginning of the
    text in the file, which is not JSON. *)
Definition write_json (rows : list dict) : file * outcome () :=
  if encodable (JArr (JObj <$> rows))
  then (Rows rows, Done ())
  else (Malformed, Raised UnicodeEncodeError).

(** The loop over [asyncio.as_completed(tasks)]: the results are awaited
    in the order in which the tasks complete, and the first task that
    raised ends the loop with its exception. *)
Fixpoint await_all {A} (completed : list (outcome A)) : outcome (list A) :=
  match completed with
  | [] => Done []
  | Done channel_items :: completed =>
      per_channel_results ← await_all completed;
      Done (channel_items :: per_channel_results)
  | Raised e :: _ => Raised e
  end.

(** The merged and sorted list, which becomes the full harvest. *)
Definition full_harvest (completed : list (outcome (list HarvestEntry)))
    : outcome (list HarvestEntry) :=
  per_channel_results ← await_all completed;
  sort_by_created_at (concat per_channel_results).

(** [_main_async], from the token check on. [completed] lists the outcomes
    of the per-channel tasks in the order in which they complete. The
    result is the state of the two files when the run ends, and how it
    ends. *)
Definition _main_async (auth_token : option pystr) (fs : files)
    (completed : list (outcome (list HarvestEntry))) : files * outcome () :=
  match auth_token with
  | None | Some [] => (fs, Raised SystemExit)
  | Some (_ :: _) =>
      match load_existing_thread_ids (newest_json fs) with
      | Raised e => (fs, Raised e)
      | Done existing_thread_ids =>
          match full_harvest completed with
          | Raised e => (fs, Raised e)
          | Done results =>
              match write_json (entry_row <$> results) with
              | (newest, Raised e) => (Files newest (new_json fs), Raised e)
              | (newest, Done _) =>
                  let fs := Files newest (new_json fs) in
                  match new_results existing_thread_ids results with
                  | Raised e => (fs, Raised e)
                  | Done new_results =>
                      let (new, r) := write_json (entry_row <$> new_results) in
                      (Files (newest_json fs) new, r)
                  end
              end
          end
      end
  end.

(** *** The data model of the specification *)

(** The order of the harvest files: newest first. *)
Definition newest_first (a b : HarvestEntry) : Prop :=
  (key_number b ≤ key_number a)%Z.

(** [created_at] is a numeric timestamp, or is missing. *)
Definition numeric_created_at (e : HarvestEntry) : Prop :=
  is_Some (as_number (created_at_key e)).

(** The [thread_id] of an entry is a non-empty string. *)
Definition string_thread_id (e : HarvestEntry) : Prop :=
  ∃ c s, thread_id e = JStr (c :: s).

(** A Thread as the remote API gives it: its [id], when it has one, is a
    string, and its [created_at], when it has one, is a number. *)
Definition api_thread (t : Thread) : Prop :=
  (t !! py "id" = None ∨ ∃ s, t !! py "id" = Some (JStr s)) ∧
  (t !! py "created_at" = None ∨ ∃ n, t !! py "created_at" = Some (JNum n)).

(** The [thread_id] values present in a harvest file. *)
Definition thread_id_values (previous : file) : list json :=
  match previous with
  | Rows rows => omap (λ row : dict, row !! py "thread_id") rows
  | Missing | Malformed | Undecodable => []
  end.

(** Every string of the entry can be encoded in UTF-8: none holds a lone
    surrogate. *)
Definition encodable_entry (e : HarvestEntry) : Prop :=
  encodable (JObj (entry_row e)) = true.

(** A [thread_id] that can be looked up in a set: neither a list nor a
    dict. *)
Definition hashable (v : json) : Prop :=
  match v with
  | JArr _ | JObj _ => False
  | _ => True
  end.

(** The filter of the new-items list on an entry whose id can be hashed. *)
Definition fresh (ids : gset pystr) (e : HarvestEntry) : bool :=
  match thread_id e with
  | JStr s => bool_decide (s ∉ ids)
  | _ => true
  end.

(** *** Sample data *)

Definition sample_thread (id : string) (created_at : option Z) : Thread :=
  let t : Thread := <[py "id" := JStr (py id)]> (<[py "reply_count" := JNum 2]> ∅) in
  match created_at with
  | Some n => <[py "created_at" := JNum n]> t
  | None => t
  end.

Definition sample_entry (channel id : string) (created_at : option Z)
    : HarvestEntry :=
  Entry (JStr (py channel)) (JStr (py channel)) (JStr (py id))
    (_sanitize_thread (sample_thread id created_at)).

Definition sample_row (id : string) : dict :=
  entry_row (sample_entry "ch" id (Some 1%Z)).

(** ** Properties of the harvester *)

(** *** Sanitization *)

Lemma elem_of_volatile_fields (k : pystr) :
  k ∈ volatile_fields ↔
    k = py "updated_at" ∨ k = py "reaction_total" ∨ k = py "reply_count" ∨
    k = py "is_favorite" ∨ k = py "user_reacted_count".
Proof.
  unfold volatile_fields. rewrite !elem_of_cons, elem_of_nil. tauto.
Qed.

Lemma lookup_sanitize_volatile (t : Thread) (k : pystr) :
  k ∈ volatile_fields → _sanitize_thread t !! k = None.
Proof.
  rewrite elem_of_volatile_fields. unfold _sanitize_thread. cbv zeta.
  intros [->|[->|[->|[->| ->]]]]; rewrite !lookup_delete;
    repeat case_decide; done.
Qed.

Lemma lookup_sanitize_other (t : Thread) (k : pystr) :
  k ∉ volatile_fields → _sanitize_thread t !! k = t !! k.
Proof.
  rewrite elem_of_volatile_fields. unfold _sanitize_thread. cbv zeta.
  intros Hk. rewrite !lookup_delete.
  repeat case_decide; try reflexivity; exfalso; apply Hk; subst; tauto.
Qed.

(** C2. Sanitization strips exactly the five volatile fields: the keys of
    [_sanitize_thread t] are the keys of [t] minus the five, every other
    key keeps its value, and two threads that differ at most on those
    five fields are equal after sanitization. *)
Theorem sanitize_strips_exactly_volatile (t : Thread) :
  dom (_sanitize_thread t) = dom t ∖ list_to_set volatile_fields ∧
  (∀ k, k ∈ volatile_fields → _sanitize_thread t !! k = None) ∧
  (∀ k, k ∉ volatile_fields → _sanitize_thread t !! k = t !! k) ∧
  (∀ t' : Thread,
     (∀ k, k ∉ volatile_fields → t !! k = t' !! k) →
     _sanitize_thread t = _sanitize_thread t').
Proof.
  split; [|split; [|split]].
  - apply set_eq. intros k.
    rewrite elem_of_difference, elem_of_list_to_set, !elem_of_dom.
    destruct (decide (k ∈ volatile_fields)) as [Hk|Hk].
    + rewrite lookup_sanitize_volatile by done.
      split; [intros [? ?]; discriminate | tauto].
    + rewrite lookup_sanitize_other by done. tauto.
  - apply lookup_sanitize_volatile.
  - apply lookup_sanitize_other.
  - intros t' Hagree. apply map_eq. intros k.
    destruct (decide (k ∈ volatile_fields)) as [Hk|Hk].
    + by rewrite !lookup_sanitize_volatile.
    + rewrite !lookup_sanitize_other by done. by apply Hagree.
Qed.

(** C10. Sanitization is idempotent. *)
Theorem sanitize_idempotent (t : Thread) :
  _sanitize_thread (_sanitize_thread t) = _sanitize_thread t.
Proof.
  apply map_eq. intros k.
  destruct (decide (k ∈ volatile_fields)) as [Hk|Hk].
  - by rewrite !lookup_sanitize_volatile.
  - by rewrite !lookup_sanitize_other.
Qed.

(** Two harvests of one thread, between which the counters moved, are
    equal once sanitized. *)
Example sanitize_counters_moved :
  _sanitize_thread
    (<[py "reply_count" := JNum 7]> (<[py "is_favorite" := JBool true]>
       (sample_thread "a" (Some 5%Z)))) =
  _sanitize_thread (sample_thread "a" (Some 5%Z)).
Proof. vm_compute. reflexivity. Qed.

(** *** The collector *)

Lemma created_at_not_volatile : py "created_at" ∉ volatile_fields.
Proof.
  rewrite elem_of_volatile_fields.
  intros [H|[H|[H|[H|H]]]]; vm_compute in H; discriminate.
Qed.

Lemma harvest_entry_Some (channel_id channel_name : json) (t : Thread)
    (e : HarvestEntry) :
  harvest_entry channel_id channel_name t = Some e →
  truthy (thread_id e) = true ∧
  thread_id e = get_default t (py "id") (JStr []) ∧
  thread e = _sanitize_thread t.
Proof.
  unfold harvest_entry. cbv zeta.
  destruct (truthy (get_default t (py "id") (JStr []))) eqn:Hid; [|done].
  by intros [= <-].
Qed.

(** A thread without an [id], or with an empty one, is dropped. *)
Lemma harvest_entry_no_id (channel_id channel_name : json) (t : Thread) :
  t !! py "id" = None ∨ t !! py "id" = Some (JStr []) →
  harvest_entry channel_id channel_name t = None.
Proof.
  unfold harvest_entry, get_default. by intros [-> | ->].
Qed.

(** The entries collected from threads of the remote API are entries of
    the data model. *)
Lemma harvest_entry_data_model (channel_id channel_name : json) (t : Thread)
    (e : HarvestEntry) :
  api_thread t →
  harvest_entry channel_id channel_name t = Some e →
  string_thread_id e ∧ numeric_created_at e.
Proof.
  intros [Hid Hcreated] (Htruthy & Hthread_id & Hthread)%harvest_entry_Some.
  split.
  - unfold string_thread_id. rewrite Hthread_id in *. unfold get_default in *.
    destruct Hid as [Hid|[s Hid]]; rewrite Hid in *; simpl in *; [done|].
    destruct s as [|c s]; [done|]. by exists c, s.
  - unfold numeric_created_at, created_at_key, get_default.
    rewrite Hthread, lookup_sanitize_other by apply created_at_not_volatile.
    by destruct Hcreated as [->|[n ->]].
Qed.

Lemma collected_data_model (channel_id channel_name : json)
    (threads : list Thread) :
  Forall api_thread threads →
  Forall (λ e, string_thread_id e ∧ numeric_created_at e)
    (omap (harvest_entry channel_id channel_name) threads).
Proof.
  intros Hthreads. apply Forall_forall.
  intros e (t & Ht & He)%list_elem_of_omap.
  eapply harvest_entry_data_model; [|exact He].
  by eapply Forall_forall in Hthreads.
Qed.

(** *** Pagination *)

Lemma iter_all_threads_last (data : page) rest cursor :
  ¬ continues data →
  iter_all_threads (Done data :: rest) cursor =
    FetchTrace (page_items data) [cursor_param cursor] Exhausted.
Proof.
  intros Hstop. simpl. destruct (page_items data) as [|it its] eqn:Hits; [done|].
  destruct (cursor_truthy (next_cursor data)) eqn:Hc; [|done].
  destruct Hstop. split; [by rewrite Hits | done].
Qed.

Lemma iter_all_threads_continues (data : page) rest cursor :
  continues data →
  iter_all_threads (Done data :: rest) cursor =
    round (cursor_param cursor) (page_items data)
      (iter_all_threads rest (next_cursor data)).
Proof.
  intros [Hits Hc]. simpl. destruct (page_items data); [done|]. by rewrite Hc.
Qed.

Lemma cursor_param_continues (data : page) :
  continues data → cursor_param (next_cursor data) = next_cursor data.
Proof. intros [_ Hc]. unfold cursor_param. by rewrite Hc. Qed.

Lemma iter_all_threads_pages (pre : list page) (last : page) rest cursor :
  Forall continues pre → ¬ continues last →
  iter_all_threads ((Done <$> pre) ++ Done last :: rest) cursor =
    FetchTrace (concat (page_items <$> pre ++ [last]))
      (cursor_param cursor :: (next_cursor <$> pre)) Exhausted.
Proof.
  intros Hpre Hlast. revert cursor.
  induction Hpre as [|data pre Hdata _ IH]; intros cursor; simpl fmap; simpl app.
  - rewrite iter_all_threads_last by done. simpl. by rewrite app_nil_r.
  - rewrite iter_all_threads_continues by done. rewrite IH. unfold round. simpl.
    by rewrite cursor_param_continues.
Qed.


(** *** The sort *)

Lemma created_at_key_number (e : HarvestEntry) :
  numeric_created_at e → as_number (created_at_key e) = Some (key_number e).
Proof. intros [n Hn]. unfold key_number. by rewrite Hn. Qed.

(** On numeric keys, an entry stays before a later one exactly when it is
    not older. *)
Lemma stays_before_numeric (a b : HarvestEntry) :
  numeric_created_at a → numeric_created_at b →
  stays_before created_at_key true a b = true ↔ newest_first a b.
Proof.
  intros Ha%created_at_key_number Hb%created_at_key_number.
  unfold stays_before, key_lt, newest_first.
  rewrite (key_lt_numbers _ _ _ _ _ Ha Hb).
  rewrite negb_true_iff, bool_decide_eq_false.
  destruct (Z.ltb_spec (key_number a) (key_number b)); split;
    intros; try lia; try congruence.
Qed.

(** The sort on numeric keys: it succeeds, and it returns the entries it
    was given, newest first, those of equal age in the order in which
    they stood. *)
Lemma sort_by_created_at_numeric (rows : list HarvestEntry) :
  Forall numeric_created_at rows →
  ∃ results,
    sort_by_created_at rows = Done results ∧
    results ≡ₚ rows ∧
    StronglySorted newest_first results ∧
    ∀ k, filter (λ e, key_number e = k) results =
         filter (λ e, key_number e = k) rows.
Proof.
  intros Hnum. unfold sort_by_created_at.
  pose proof (py_sorted_comparable created_at_key true rows
    (comparable_numbers _ _ Hnum)) as Hsort.
  eexists. split; [exact Hsort|].
  pose proof (py_sorted_perm _ _ _ _ Hsort) as Hperm.
  split; [exact Hperm|]. split.
  - eapply StronglySorted_impl_elem; [|by eapply py_sorted_sorted].
    intros a b Ha Hb. apply stays_before_numeric.
    + rewrite Hperm in Ha. by eapply Forall_forall in Hnum.
    + rewrite Hperm in Hb. by eapply Forall_forall in Hnum.
  - intros k. eapply (py_sorted_stable _ _ _ _ _ Hsort).
    intros a b Ha Hb Hka Hkb. apply stays_before_numeric.
    + by eapply Forall_forall in Hnum.
    + by eapply Forall_forall in Hnum.
    + unfold newest_first. lia.
Qed.

Lemma key_number_missing (e : HarvestEntry) :
  thread e !! py "created_at" = None → key_number e = 0%Z.
Proof.
  intros Hnone. unfold key_number, created_at_key, get_default.
  by rewrite Hnone.
Qed.

Lemma key_number_present (e : HarvestEntry) (n : Z) :
  thread e !! py "created_at" = Some (JNum n) → key_number e = n.
Proof.
  intros Hn. unfold key_number, created_at_key, get_default.
  by rewrite Hn.
Qed.

Lemma numeric_created_at_present (e : HarvestEntry) (n : Z) :
  thread e !! py "created_at" = Some (JNum n) → numeric_created_at e.
Proof.
  intros Hn. unfold numeric_created_at, created_at_key, get_default.
  rewrite Hn. by eexists.
Qed.

(** *** The tasks *)

Lemma await_all_Done {A} (per_channel : list A) :
  await_all (Done <$> per_channel) = Done per_channel.
Proof.
  induction per_channel as [|x l IH]; [done|].
  rewrite fmap_cons. cbn [await_all]. by rewrite IH.
Qed.

Lemma await_all_cases {A} (completed : list (outcome A)) :
  Forall is_Done completed ∨ ∃ e, await_all completed = Raised e.
Proof.
  induction completed as [|[x|e] completed [IH|[e' IH]]].
  - left. constructor.
  - left. constructor; [by exists x | done].
  - right. exists e'. simpl. by rewrite IH.
  - right. by exists e.
  - right. by exists e.
Qed.

Lemma await_all_Raised {A} (completed : list (outcome A)) :
  ¬ Forall is_Done completed → ∃ e, await_all completed = Raised e.
Proof. by destruct (await_all_cases completed). Qed.

Lemma concat_perm {A} (l1 l2 : list (list A)) :
  l1 ≡ₚ l2 → concat l1 ≡ₚ concat l2.
Proof.
  induction 1 as [|x l1 l2 _ IH|x y l|l1 l2 l3 _ IH1 _ IH2]; simpl.
  - done.
  - by rewrite IH.
  - rewrite !(assoc (++)). by rewrite (comm (++) y x).
  - by rewrite IH1.
Qed.

Lemma full_harvest_Done (per_channel : list (list HarvestEntry)) :
  full_harvest (Done <$> per_channel) =
    sort_by_created_at (concat per_channel).
Proof. unfold full_harvest. by rewrite await_all_Done. Qed.

Lemma full_harvest_inv (completed : list (outcome (list HarvestEntry)))
    (results : list HarvestEntry) :
  full_harvest completed = Done results →
  ∃ per_channel,
    completed = Done <$> per_channel ∧
    sort_by_created_at (concat per_channel) = Done results.
Proof.
  unfold full_harvest.
  destruct (await_all completed) as [per_channel|] eqn:Hawait; [|done].
  simpl. intros Hsort. exists per_channel. split; [|done].
  clear Hsort. revert per_channel Hawait.
  induction completed as [|[x|e] completed IH]; intros per_channel; simpl.
  - by intros [= <-].
  - destruct (await_all completed) as [l|]; [|done]. simpl.
    intros [= <-]. by rewrite (IH l).
  - done.
Qed.

(** *** Writing a file *)

Lemma encodable_rows (rows : list dict) :
  encodable (JArr (JObj <$> rows)) = true ↔
    Forall (λ row, encodable (JObj row) = true) rows.
Proof.
  cbn [encodable]. induction rows as [|row rows IH].
  - split; [constructor|done].
  - rewrite fmap_cons, Forall_cons. cbn [forallb].
    rewrite andb_true_iff, IH. done.
Qed.

Lemma write_json_encodable (rows : list dict) :
  Forall (λ row, encodable (JObj row) = true) rows →
  write_json rows = (Rows rows, Done ()).
Proof. intros Hrows%encodable_rows. unfold write_json. by rewrite Hrows. Qed.

Lemma write_json_entries (results : list HarvestEntry) :
  Forall encodable_entry results →
  write_json (entry_row <$> results) = (Rows (entry_row <$> results), Done ()).
Proof. intros Hall. by apply write_json_encodable, Forall_fmap. Qed.

Lemma write_json_Done (rows : list dict) (f : file) (u : ()) :
  write_json rows = (f, Done u) →
  f = Rows rows ∧ Forall (λ row, encodable (JObj row) = true) rows.
Proof.
  unfold write_json. destruct (encodable _) eqn:Henc; [|done].
  intros [= <-]. split; [done|]. by apply encodable_rows.
Qed.

Lemma write_json_Raised (rows : list dict) (f : file) (e : exn) :
  write_json rows = (f, Raised e) →
  f = Malformed ∧ e = UnicodeEncodeError ∧
  ¬ Forall (λ row, encodable (JObj row) = true) rows.
Proof.
  unfold write_json. destruct (encodable _) eqn:Henc; [done|].
  intros [= <- <-]. split; [done|]. split; [done|].
  intros Hall%encodable_rows. congruence.
Qed.

(** *** The known ids and the new threads *)

Lemma elem_of_add_thread_id (ids : gset pystr) (row : dict) (s : pystr) :
  s ∈ add_thread_id ids row ↔
    s ∈ ids ∨ (s ≠ [] ∧ row !! py "thread_id" = Some (JStr s)).
Proof.
  unfold add_thread_id, get.
  destruct (row !! py "thread_id") as [[| | |[|c s']| |]|]; simpl;
    rewrite ?elem_of_union, ?elem_of_singleton; naive_solver.
Qed.

Lemma elem_of_known_ids (rows : list dict) (s : pystr) :
  s ∈ foldl add_thread_id ∅ rows ↔
    s ≠ [] ∧ JStr s ∈ thread_id_values (Rows rows).
Proof.
  unfold thread_id_values.
  induction rows as [|row rows IH] using rev_ind.
  - simpl. rewrite elem_of_empty, elem_of_nil. tauto.
  - rewrite foldl_app, omap_app, elem_of_app. cbn [foldl].
    rewrite elem_of_add_thread_id, IH, (list_elem_of_omap _ [row]).
    setoid_rewrite list_elem_of_singleton. naive_solver.
Qed.

Lemma elem_of_load_existing_thread_ids (previous : file) (ids : gset pystr)
    (s : pystr) :
  load_existing_thread_ids previous = Done ids →
  s ∈ ids ↔ s ≠ [] ∧ JStr s ∈ thread_id_values previous.
Proof.
  destruct previous as [| |rows|]; simpl; intros [= <-].
  - rewrite elem_of_empty, elem_of_nil. tauto.
  - rewrite elem_of_empty, elem_of_nil. tauto.
  - apply elem_of_known_ids.
Qed.

Lemma load_existing_thread_ids_decodable (previous : file) :
  previous ≠ Undecodable → is_Done (load_existing_thread_ids previous).
Proof. intros Hne. destruct previous; [by eexists..|done]. Qed.


Lemma fresh_iff (previous : file) (ids : gset pystr) (e : HarvestEntry) :
  load_existing_thread_ids previous = Done ids →
  string_thread_id e →
  fresh ids e ↔ thread_id e ∉ thread_id_values previous.
Proof.
  intros Hload (c & s & Hid). unfold fresh. rewrite Hid, bool_decide_spec.
  rewrite (elem_of_load_existing_thread_ids _ _ _ Hload). naive_solver.
Qed.

Lemma string_thread_id_hashable (e : HarvestEntry) :
  string_thread_id e → hashable (thread_id e).
Proof. by intros (c & s & ->). Qed.

Lemma rows_not_in_hashable (ids : gset pystr) (results : list HarvestEntry) :
  Forall (λ e, hashable (thread_id e)) results →
  rows_not_in ids results = Done (filter (λ e, fresh ids e) results).
Proof.
  induction 1 as [|e results Hid _ IH]; simpl; [done|].
  rewrite IH. simpl. rewrite filter_cons.
  assert (not_in (thread_id e) ids = Done (fresh ids e)) as ->.
  { unfold fresh, not_in. by destruct (thread_id e). }
  simpl. by destruct (fresh ids e), (decide _) as [Hd|Hd]; simpl in Hd.
Qed.

Lemma rows_not_in_filter (ids : gset pystr) (results kept : list HarvestEntry) :
  rows_not_in ids results = Done kept →
  kept = filter (λ e, fresh ids e) results.
Proof.
  revert kept. induction results as [|row results IH]; intros kept; simpl.
  - by intros [= <-].
  - destruct (not_in (thread_id row) ids) as [keep|] eqn:Hkeep; [|done].
    simpl. destruct (rows_not_in ids results) as [rest|]; [|done]. simpl.
    intros [= <-]. rewrite filter_cons, <- (IH rest eq_refl).
    assert (keep = fresh ids row) as ->.
    { unfold not_in, fresh in *. destruct (thread_id row); congruence. }
    by destruct (fresh ids row), (decide _) as [Hd|Hd]; simpl in Hd.
Qed.

Lemma rows_not_in_sublist (ids : gset pystr) (results kept : list HarvestEntry) :
  rows_not_in ids results = Done kept → kept `sublist_of` results.
Proof.
  revert kept. induction results as [|row results IH]; intros kept; simpl.
  - intros [= <-]. constructor.
  - destruct (not_in (thread_id row) ids) as [keep|]; [|done]. simpl.
    destruct (rows_not_in ids results) as [rest|]; [|done]. simpl.
    intros [= <-]. destruct keep.
    + by apply sublist_skip, IH.
    + by apply sublist_cons, IH.
Qed.

Lemma rows_not_in_unhashable (ids : gset pystr) (results : list HarvestEntry)
    (e : HarvestEntry) :
  e ∈ results → ¬ hashable (thread_id e) →
  rows_not_in ids results = Raised TypeError.
Proof.
  intros He Hid. induction results as [|row results IH]; simpl.
  - by apply elem_of_nil in He.
  - apply elem_of_cons in He as [<-|He].
    + by destruct (thread_id e); simpl in Hid; try (by destruct Hid).
    + rewrite (IH He).
      by destruct (thread_id row) as [| | | |?|?]; simpl;
        try destruct (bool_decide _).
Qed.

(** The second sort, of a part of the sorted harvest, changes nothing. *)
Lemma new_results_of_sorted (ids : gset pystr)
    (merged results kept : list HarvestEntry) :
  sort_by_created_at merged = Done results →
  rows_not_in ids results = Done kept →
  new_results ids results = Done kept.
Proof.
  intros Hsort Hkept. unfold new_results. rewrite Hkept. simpl.
  eapply py_sorted_sublist; [exact Hsort|]. by eapply rows_not_in_sublist.
Qed.

(** *** The run *)

(** A run on entries that can be sorted, looked up and written. *)
Lemma main_async_Done (auth_token : pystr) (fs : files)
    (completed : list (outcome (list HarvestEntry)))
    (ids : gset pystr) (results : list HarvestEntry) :
  auth_token ≠ [] →
  load_existing_thread_ids (newest_json fs) = Done ids →
  full_harvest completed = Done results →
  Forall (λ e, hashable (thread_id e)) results →
  Forall encodable_entry results →
  _main_async (Some auth_token) fs completed =
    (Files (Rows (entry_row <$> results))
       (Rows (entry_row <$> filter (λ e, fresh ids e) results)),
     Done ()).
Proof.
  intros Htoken Hload Hfull Hhash Henc. unfold _main_async.
  destruct auth_token as [|c token]; [done|].
  rewrite Hload, Hfull, write_json_entries by done. cbv zeta.
  apply full_harvest_inv in Hfull as (per_channel & _ & Hsort).
  rewrite (new_results_of_sorted _ _ _ _ Hsort (rows_not_in_hashable _ _ Hhash)).
  rewrite write_json_entries; [done|].
  apply Forall_forall. intros e [_ He]%list_elem_of_filter.
  by eapply Forall_forall in Henc.
Qed.

(** What a run that ends normally has done. *)
Lemma main_async_inv (auth_token : option pystr) (fs fs' : files)
    (completed : list (outcome (list HarvestEntry))) :
  _main_async auth_token fs completed = (fs', Done ()) →
  ∃ ids results new,
    load_existing_thread_ids (newest_json fs) = Done ids ∧
    full_harvest completed = Done results ∧
    rows_not_in ids results = Done new ∧
    fs' = Files (Rows (entry_row <$> results)) (Rows (entry_row <$> new)).
Proof.
  unfold _main_async.
  destruct auth_token as [[|c token]|]; [done| |done].
  destruct (load_existing_thread_ids _) as [ids|]; [|done].
  destruct (full_harvest completed) as [results|] eqn:Hfull; [|done].
  destruct (write_json (entry_row <$> results)) as [newest [[]|]] eqn:Hw1;
    [|done].
  apply write_json_Done in Hw1 as [-> _]. cbv zeta.
  destruct (new_results ids results) as [new|] eqn:Hnew; [|done].
  destruct (write_json (entry_row <$> new)) as [newf [[]|]] eqn:Hw2;
    [|done].
  apply write_json_Done in Hw2 as [-> _]. intros [= <-].
  exists ids, results, new. split; [done|]. split; [done|]. split; [|done].
  unfold new_results in Hnew.
  destruct (rows_not_in ids results) as [kept|] eqn:Hkept; [|done].
  simpl in Hnew. f_equal.
  apply full_harvest_inv in Hfull as (per_channel & _ & Hsort).
  pose proof (py_sorted_sublist _ _ _ _ _ Hsort
    (rows_not_in_sublist _ _ _ Hkept)) as Hsame.
  unfold sort_by_created_at in Hnew. congruence.
Qed.

(** C4, counterexample. An entry without [created_at] does not always
    sort last: it is ordered as [0], and so it comes before an entry whose
    [created_at] is negative, in the harvest and in the file. *)
Lemma missing_created_at_sorts_before_negative :
  thread (sample_entry "ch" "m" None) !! py "created_at" = None ∧
  full_harvest
    [Done [sample_entry "ch" "n" (Some (-2)%Z); sample_entry "ch" "m" None]] =
    Done [sample_entry "ch" "m" None; sample_entry "ch" "n" (Some (-2)%Z)] ∧
  newest_json
    (_main_async (Some (py "token")) (Files Missing Missing)
       [Done [sample_entry "ch" "n" (Some (-2)%Z);
              sample_entry "ch" "m" None]]).1 =
    Rows (entry_row <$>
      [sample_entry "ch" "m" None; sample_entry "ch" "n" (Some (-2)%Z)]).
Proof.
  split; [by vm_compute|]. split; vm_compute; reflexivity.
Qed.

(** C4, as the code has it. With numeric [created_at], the full harvest
    is the merged list sorted descending by [created_at], and it is what
    a run that ends normally leaves in the harvest file. An entry without
    [created_at] is ordered as if its value were [0]: whatever precedes it
    has a key of at least [0] and whatever follows it a key of at most
    [0], so that it follows the entries of positive [created_at] and
    precedes those of negative [created_at]. Entries with the values
    [5, 1, 3] come out in the order [5, 3, 1]. *)
Theorem full_harvest_sorted_descending
    (per_channel : list (list HarvestEntry)) :
  Forall numeric_created_at (concat per_channel) →
  ∃ results,
    full_harvest (Done <$> per_channel) = Done results ∧
    (∀ auth_token fs fs',
       _main_async auth_token fs (Done <$> per_channel) = (fs', Done ()) →
       newest_json fs' = Rows (entry_row <$> results)) ∧
    results ≡ₚ concat per_channel ∧
    StronglySorted newest_first results ∧
    (∀ before e after,
       results = before ++ e :: after →
       thread e !! py "created_at" = None →
       key_number e = 0%Z ∧
       Forall (λ e', (0 ≤ key_number e')%Z) before ∧
       Forall (λ e', (key_number e' ≤ 0)%Z) after) ∧
    (∀ e5 e1 e3,
       thread e5 !! py "created_at" = Some (JNum 5) →
       thread e1 !! py "created_at" = Some (JNum 1) →
       thread e3 !! py "created_at" = Some (JNum 3) →
       concat per_channel = [e5; e1; e3] →
       results = [e5; e3; e1]).
Proof.
  intros Hnum.
  destruct (sort_by_created_at_numeric _ Hnum)
    as (results & Hsort & Hperm & Hsorted & _).
  exists results. rewrite full_harvest_Done.
  split; [exact Hsort|]. split; [|split; [exact Hperm|split; [exact Hsorted|]]].
  - intros auth_token fs fs'
      (ids & results' & new & _ & Hfull & _ & ->)%main_async_inv.
    rewrite full_harvest_Done in Hfull. simpl. congruence.
  - split.
    + intros before e after Hsplit Hmissing.
      rewrite Hsplit in Hsorted.
      apply StronglySorted_app in Hsorted as (Hcross & _ & Hrest).
      apply StronglySorted_cons in Hrest as [Hafter _].
      pose proof (key_number_missing e Hmissing) as Hzero.
      split; [done|]. split.
      * apply Forall_forall. intros e' He'.
        specialize (Hcross e' e He' (list_elem_of_here _ _)).
        unfold newest_first in Hcross. lia.
      * eapply Forall_impl; [exact Hafter|].
        intros e'. unfold newest_first. lia.
    + intros e5 e1 e3 H5 H1 H3 Hconcat. rewrite Hconcat in Hperm.
      pose proof (key_number_present _ _ H5) as K5.
      pose proof (key_number_present _ _ H1) as K1.
      pose proof (key_number_present _ _ H3) as K3.
      apply (StronglySorted_unique_strong newest_first); [|done| |].
      * intros a b Ha Hb. rewrite Hperm in Ha. unfold newest_first.
        set_unfold. intros ? ?.
        destruct Ha as [->|[->|[->|[]]]], Hb as [->|[->|[->|[]]]];
          try done; lia.
      * unfold newest_first.
        repeat (constructor; [repeat constructor; lia|]). constructor.
      * rewrite Hperm. apply Permutation_skip, Permutation_swap.
Qed.

Lemma full_harvest_sorted_descending_witness :
  ∃ results,
    full_harvest
      (Done <$> [[sample_entry "c1" "a" (Some 1%Z); sample_entry "c1" "b" None];
                 [sample_entry "c2" "c" (Some 3%Z)]]) = Done results ∧
    newest_json
      (_main_async (Some (py "token")) (Files Missing Missing)
         (Done <$> [[sample_entry "c1" "a" (Some 1%Z);
                     sample_entry "c1" "b" None];
                    [sample_entry "c2" "c" (Some 3%Z)]])).1 =
      Rows (entry_row <$> results) ∧
    StronglySorted newest_first results.
Proof.
  destruct (full_harvest_sorted_descending
    [[sample_entry "c1" "a" (Some 1%Z); sample_entry "c1" "b" None];
     [sample_entry "c2" "c" (Some 3%Z)]])
    as (results & Hfull & Hfile & _ & Hsorted & _).
  - repeat constructor; vm_compute; eexists; reflexivity.
  - exists results. split; [exact Hfull|]. split; [|exact Hsorted].
    eapply (Hfile (Some (py "token")) (Files Missing Missing)).
    vm_compute. reflexivity.
Defined.

(** The run on entries of the data model. *)
Lemma main_async_data_model (auth_token : pystr) (fs : files)
    (per_channel : list (list HarvestEntry)) :
  auth_token ≠ [] →
  newest_json fs ≠ Undecodable →
  Forall (λ e, hashable (thread_id e)) (concat per_channel) →
  Forall numeric_created_at (concat per_channel) →
  Forall encodable_entry (concat per_channel) →
  ∃ ids results,
    load_existing_thread_ids (newest_json fs) = Done ids ∧
    full_harvest (Done <$> per_channel) = Done results ∧
    results ≡ₚ concat per_channel ∧
    StronglySorted newest_first results ∧
    _main_async (Some auth_token) fs (Done <$> per_channel) =
      (Files (Rows (entry_row <$> results))
         (Rows (entry_row <$> filter (λ e, fresh ids e) results)),
       Done ()).
Proof.
  intros Htoken Hprevious Hhash Hnum Henc.
  destruct (load_existing_thread_ids_decodable _ Hprevious) as [ids Hload].
  destruct (sort_by_created_at_numeric _ Hnum)
    as (results & Hsort & Hperm & Hsorted & _).
  exists ids, results. rewrite full_harvest_Done.
  split; [done|]. split; [done|]. split; [done|]. split; [done|].
  apply main_async_Done; try done; try (by rewrite Hperm).
  by rewrite full_harvest_Done.
Qed.

(** C1. A run on entries of the data model writes, as the new-items
    file, exactly the entries of the harvest whose [thread_id] is not
    among the [thread_id] values of the previous harvest file, sorted
    descending by [created_at]. With a previous harvest of ids A and B
    and merged entries of ids A, B and C, it is the entry of id C alone.
    And every run that ends normally, whatever its entries, has written
    as the new-items file the entries of its harvest that the filter
    keeps: those whose [thread_id] is not a known id. *)
Theorem new_items_are_the_unknown_threads
    (auth_token : pystr) (fs : files) (per_channel : list (list HarvestEntry)) :
  auth_token ≠ [] →
  newest_json fs ≠ Undecodable →
  Forall string_thread_id (concat per_channel) →
  Forall numeric_created_at (concat per_channel) →
  Forall encodable_entry (concat per_channel) →
  ∃ ids merged new,
    load_existing_thread_ids (newest_json fs) = Done ids ∧
    full_harvest (Done <$> per_channel) = Done merged ∧
    merged ≡ₚ concat per_channel ∧
    _main_async (Some auth_token) fs (Done <$> per_channel) =
      (Files (Rows (entry_row <$> merged)) (Rows (entry_row <$> new)),
       Done ()) ∧
    new = filter (λ e, fresh ids e) merged ∧
    (∀ e, e ∈ merged →
       fresh ids e ↔ thread_id e ∉ thread_id_values (newest_json fs)) ∧
    (∀ e, e ∈ new ↔
       e ∈ merged ∧ thread_id e ∉ thread_id_values (newest_json fs)) ∧
    StronglySorted newest_first new ∧
    (∀ eA eB eC,
       merged ≡ₚ [eA; eB; eC] →
       (∀ v, v ∈ thread_id_values (newest_json fs) ↔
               v = thread_id eA ∨ v = thread_id eB) →
       thread_id eC ≠ thread_id eA → thread_id eC ≠ thread_id eB →
       new = [eC]) ∧
    (∀ auth_token' fs0 fs' completed,
       _main_async auth_token' fs0 completed = (fs', Done ()) →
       ∃ ids0 results,
         load_existing_thread_ids (newest_json fs0) = Done ids0 ∧
         full_harvest completed = Done results ∧
         new_json fs' =
           Rows (entry_row <$> filter (λ e, fresh ids0 e) results)).
Proof.
  intros Htoken Hprevious Hids Hnum Henc.
  destruct (main_async_data_model auth_token fs per_channel)
    as (ids & merged & Hload & Hfull & Hperm & Hsorted & Hrun); try done.
  { eapply Forall_impl; [exact Hids|]. apply string_thread_id_hashable. }
  assert (∀ e, e ∈ merged →
    fresh ids e ↔ thread_id e ∉ thread_id_values (newest_json fs)) as Hfresh.
  { intros e He. apply fresh_iff; [done|].
    rewrite Hperm in He. by eapply Forall_forall in Hids. }
  exists ids, merged, (filter (λ e, fresh ids e) merged).
  split; [done|]. split; [done|]. split; [done|]. split; [done|].
  split; [done|]. split; [done|].
  split; [|split; [|split]].
  - intros e. rewrite list_elem_of_filter.
    split; intros [H1 H2].
    + split; [done|]. by apply Hfresh.
    + split; [|done]. by apply Hfresh.
  - eapply StronglySorted_sublist; [apply sublist_filter | done].
  - intros eA eB eC HABC Hprev HCA HCB.
    assert (filter (λ e, fresh ids e) merged ≡ₚ [eC]) as Hone.
    { rewrite HABC.
      assert (∀ e, e ∈ [eA; eB; eC] →
        fresh ids e ↔ thread_id e ∉ thread_id_values (newest_json fs))
        as Hfresh'.
      { intros e He. apply Hfresh. by rewrite HABC. }
      rewrite !filter_cons, filter_nil.
      destruct (decide (fresh ids eA)) as [HA|_].
      { apply Hfresh' in HA; [|set_solver].
        destruct HA. apply Hprev. by left. }
      destruct (decide (fresh ids eB)) as [HB|_].
      { apply Hfresh' in HB; [|set_solver].
        destruct HB. apply Hprev. by right. }
      destruct (decide (fresh ids eC)) as [_|HC]; [done|].
      destruct HC. apply Hfresh'; [set_solver|].
      rewrite Hprev. tauto. }
    by apply Permutation_singleton_r in Hone.
  - intros auth_token' fs0 fs' completed
      (ids0 & results & kept & Hload0 & Hfull0 & Hkept & ->)%main_async_inv.
    exists ids0, results. split; [done|]. split; [done|]. simpl.
    by rewrite (rows_not_in_filter _ _ _ Hkept).
Qed.

Lemma new_items_are_the_unknown_threads_witness :
  _main_async (Some (py "token"))
    (Files (Rows [sample_row "A"; sample_row "B"]) Missing)
    (Done <$> [[sample_entry "c1" "C" (Some 3%Z);
                sample_entry "c1" "B" (Some 2%Z)];
               [sample_entry "c2" "A" (Some 1%Z)]]) =
  (Files
     (Rows (entry_row <$>
        [sample_entry "c1" "C" (Some 3%Z); sample_entry "c1" "B" (Some 2%Z);
         sample_entry "c2" "A" (Some 1%Z)]))
     (Rows (entry_row <$> [sample_entry "c1" "C" (Some 3%Z)])),
   Done ()).
Proof.
  destruct (new_items_are_the_unknown_threads (py "token")
    (Files (Rows [sample_row "A"; sample_row "B"]) Missing)
    [[sample_entry "c1" "C" (Some 3%Z); sample_entry "c1" "B" (Some 2%Z)];
     [sample_entry "c2" "A" (Some 1%Z)]])
    as (ids & merged & new & Hload & Hfull & _ & Hrun & Hnew & _).
  - vm_compute. discriminate.
  - discriminate.
  - repeat constructor; vm_compute; do 2 eexists; reflexivity.
  - repeat constructor; vm_compute; eexists; reflexivity.
  - repeat constructor; vm_compute; reflexivity.
  - rewrite Hrun.
    vm_compute in Hfull. injection Hfull as <-.
    vm_compute in Hload. injection Hload as <-.
    rewrite Hnew. vm_compute. reflexivity.
Defined.




(** C7. When the fetch of some channel fails with an HTTP error, the run
    ends with an exception and both files are as they were before it; a
    run that changed a file is one in which every task returned. *)
Theorem http_error_leaves_files_untouched
    (auth_token : option pystr) (fs : files)
    (completed : list (outcome (list HarvestEntry))) :
  Raised HTTPError ∈ completed →
  (∃ e, _main_async auth_token fs completed = (fs, Raised e)) ∧
  (∀ completed',
     (_main_async auth_token fs completed').1 ≠ fs →
     Forall is_Done completed').
Proof.
  assert (∀ completed', ¬ Forall is_Done completed' →
    ∃ e, _main_async auth_token fs completed' = (fs, Raised e)) as Hfail.
  { intros completed' Hnot. unfold _main_async.
    destruct auth_token as [[|c token]|]; [by eexists| |by eexists].
    destruct (load_existing_thread_ids _) as [ids|e]; [|by eexists].
    destruct (await_all_Raised _ Hnot) as [e He].
    exists e. unfold full_harvest. by rewrite He. }
  intros Hin. split.
  - apply Hfail. intros Hall.
    eapply Forall_forall in Hall; [|exact Hin]. by destruct Hall.
  - intros completed' Hchanged.
    destruct (await_all_cases completed') as [Hall|[e He]]; [done|].
    destruct Hchanged. unfold _main_async, full_harvest. rewrite He.
    destruct auth_token as [[|c token]|]; try done.
    by destruct (load_existing_thread_ids _).
Qed.

Lemma http_error_leaves_files_untouched_witness :
  ∃ e,
    _main_async (Some (py "token")) (Files (Rows [sample_row "A"]) Missing)
      [Done [sample_entry "c1" "a" (Some 1%Z)]; Raised HTTPError] =
      (Files (Rows [sample_row "A"]) Missing, Raised e).
Proof.
  apply (http_error_leaves_files_untouched (Some (py "token"))
    (Files (Rows [sample_row "A"]) Missing)
    [Done [sample_entry "c1" "a" (Some 1%Z)]; Raised HTTPError]).
  apply list_elem_of_further, list_elem_of_here.
Defined.

(** *** The order of completion *)

(** C6, counterexample. Two channels of one entry each, the two entries
    created at the same time: the two orders of completion give two
    different harvests, each in the order of completion. *)
Lemma completion_order_changes_tied_output :
  [Done [sample_entry "c1" "x" (Some 5%Z)];
   Done [sample_entry "c2" "y" (Some 5%Z)]] ≡ₚ
  [Done [sample_entry "c2" "y" (Some 5%Z)];
   Done [sample_entry "c1" "x" (Some 5%Z)]] ∧
  full_harvest [Done [sample_entry "c1" "x" (Some 5%Z)];
                Done [sample_entry "c2" "y" (Some 5%Z)]] =
    Done [sample_entry "c1" "x" (Some 5%Z); sample_entry "c2" "y" (Some 5%Z)] ∧
  full_harvest [Done [sample_entry "c2" "y" (Some 5%Z)];
                Done [sample_entry "c1" "x" (Some 5%Z)]] =
    Done [sample_entry "c2" "y" (Some 5%Z); sample_entry "c1" "x" (Some 5%Z)] ∧
  full_harvest [Done [sample_entry "c1" "x" (Some 5%Z)];
                Done [sample_entry "c2" "y" (Some 5%Z)]] ≠
  full_harvest [Done [sample_entry "c2" "y" (Some 5%Z)];
                Done [sample_entry "c1" "x" (Some 5%Z)]].
Proof.
  split; [apply Permutation_swap|].
  split; [by vm_compute|]. split; [by vm_compute|].
  vm_compute. discriminate.
Qed.

(** C6, as the code has it. Whatever the order in which the tasks
    complete, the full harvest holds the same entries and is sorted
    descending by [created_at]; the entries of one [created_at] come out
    in the order in which they were merged, which is the order in which
    their channels completed and, within a channel, the order of its
    list; so the harvest is the same list when no two distinct entries
    have the same [created_at]. *)
Theorem completion_order_irrelevant_up_to_ties
    (per_channel1 per_channel2 : list (list HarvestEntry)) :
  per_channel1 ≡ₚ per_channel2 →
  Forall numeric_created_at (concat per_channel1) →
  ∃ results1 results2,
    full_harvest (Done <$> per_channel1) = Done results1 ∧
    full_harvest (Done <$> per_channel2) = Done results2 ∧
    results1 ≡ₚ results2 ∧
    StronglySorted newest_first results1 ∧
    StronglySorted newest_first results2 ∧
    (∀ k, filter (λ e, key_number e = k) results1 =
          filter (λ e, key_number e = k) (concat per_channel1)) ∧
    (∀ k, filter (λ e, key_number e = k) results2 =
          filter (λ e, key_number e = k) (concat per_channel2)) ∧
    ((∀ e e', e ∈ concat per_channel1 → e' ∈ concat per_channel1 →
        key_number e = key_number e' → e = e') →
     results1 = results2).
Proof.
  intros Hperm Hnum.
  pose proof (concat_perm _ _ Hperm) as Hconcat.
  assert (Forall numeric_created_at (concat per_channel2)) as Hnum2
    by (by rewrite <- Hconcat).
  destruct (sort_by_created_at_numeric _ Hnum)
    as (results1 & Hsort1 & Hperm1 & Hsorted1 & Hstable1).
  destruct (sort_by_created_at_numeric _ Hnum2)
    as (results2 & Hsort2 & Hperm2 & Hsorted2 & Hstable2).
  exists results1, results2. rewrite !full_harvest_Done.
  split; [done|]. split; [done|].
  split; [by rewrite Hperm1, Hperm2|].
  split; [done|]. split; [done|]. split; [done|]. split; [done|].
  intros Hdistinct.
  apply (StronglySorted_unique_strong newest_first); [|done..|].
  - intros e e'. rewrite Hperm1, Hperm2, <- Hconcat.
    unfold newest_first. intros He He' H1 H2. apply Hdistinct; [done..|lia].
  - by rewrite Hperm1, Hperm2.
Qed.

Lemma completion_order_irrelevant_up_to_ties_witness :
  ∃ results1 results2,
    full_harvest (Done <$> [[sample_entry "c1" "x" (Some 5%Z)];
                            [sample_entry "c2" "y" (Some 5%Z)]]) = Done results1 ∧
    full_harvest (Done <$> [[sample_entry "c2" "y" (Some 5%Z)];
                            [sample_entry "c1" "x" (Some 5%Z)]]) = Done results2 ∧
    results1 ≡ₚ results2 ∧
    filter (λ e, key_number e = 5%Z) results1 =
      [sample_entry "c1" "x" (Some 5%Z); sample_entry "c2" "y" (Some 5%Z)] ∧
    filter (λ e, key_number e = 5%Z) results2 =
      [sample_entry "c2" "y" (Some 5%Z); sample_entry "c1" "x" (Some 5%Z)].
Proof.
  destruct (completion_order_irrelevant_up_to_ties
    [[sample_entry "c1" "x" (Some 5%Z)]; [sample_entry "c2" "y" (Some 5%Z)]]
    [[sample_entry "c2" "y" (Some 5%Z)]; [sample_entry "c1" "x" (Some 5%Z)]])
    as (results1 & results2 & H1 & H2 & Hperm & _ & _ & Ht1 & Ht2 & _).
  - apply Permutation_swap.
  - repeat constructor; vm_compute; eexists; reflexivity.
  - exists results1, results2. split; [exact H1|]. split; [exact H2|].
    split; [exact Hperm|]. split; [apply Ht1 | apply Ht2].
Defined.
(** C3. Against any sequence of responses, the paginated fetch stops at
    the first page that has no items or no cursor: it yields the items of
    the pages up to that one, in order, and it has sent one request per
    such page, each with the cursor of the page before. *)
Theorem pagination_stops_at_first_terminal_page
    (pre : list page) (last : page) (rest : list (outcome page)) :
  Forall continues pre → ¬ continues last →
  iter_all_threads ((Done <$> pre) ++ Done last :: rest) None =
    FetchTrace (concat (page_items <$> pre ++ [last]))
      (None :: (next_cursor <$> pre)) Exhausted ∧
  length (requests (iter_all_threads ((Done <$> pre) ++ Done last :: rest) None))
    = S (length pre) ∧
  (∀ a b c,
     iter_all_threads
       (Done (Page (Some [a; b]) (Some (py "x"))) ::
        Done (Page (Some [c]) None) :: rest) None =
       FetchTrace [a; b; c] [None; Some (py "x")] Exhausted) ∧
  iter_all_threads (Done (Page (Some []) (Some (py "y"))) :: rest) None =
    FetchTrace [] [None] Exhausted.
Proof.
  intros Hpre Hlast.
  pose proof (iter_all_threads_pages pre last rest None Hpre Hlast) as Hrun.
  split; [exact Hrun|]. split.
  - rewrite Hrun. simpl. by rewrite length_fmap.
  - split; [|reflexivity]. intros a b c. reflexivity.
Qed.

Lemma pagination_stops_at_first_terminal_page_witness :
  iter_all_threads
    ((Done <$> [Page (Some [sample_thread "a" None; sample_thread "b" None])
                  (Some (py "x"))]) ++
     Done (Page (Some [sample_thread "c" None]) None) ::
     [Done (Page (Some [sample_thread "d" None]) None)]) None =
  FetchTrace
    (concat (page_items <$>
       [Page (Some [sample_thread "a" None; sample_thread "b" None])
          (Some (py "x"))] ++
       [Page (Some [sample_thread "c" None]) None]))
    (None :: (next_cursor <$>
       [Page (Some [sample_thread "a" None; sample_thread "b" None])
          (Some (py "x"))]))
    Exhausted.
Proof.
  apply (pagination_stops_at_first_terminal_page
    [Page (Some [sample_thread "a" None; sample_thread "b" None]) (Some (py "x"))]
    (Page (Some [sample_thread "c" None]) None)
    [Done (Page (Some [sample_thread "d" None]) None)]).
  - repeat constructor; simpl; discriminate.
  - intros [_ Hcursor]. simpl in Hcursor. discriminate.
Defined.
(** ** Further properties of the harvester *)

(** *** Pagination, over every sequence of responses *)

(** A tail of the responses on which the loop ends at once, without
    yielding: no response at all, a failed request, a page without items. *)
Lemma iter_all_threads_through (pre : list page) (tail : list (outcome page))
    (how : fetch_end) (cursor : option pystr) :
  Forall continues pre →
  (∀ c, iter_all_threads tail c = FetchTrace [] [cursor_param c] how) →
  iter_all_threads ((Done <$> pre) ++ tail) cursor =
    FetchTrace (concat (page_items <$> pre))
      (cursor_param cursor :: (next_cursor <$> pre)) how.
Proof.
  intros Hpre Htail. revert cursor.
  induction Hpre as [|data pre Hdata _ IH]; intros cursor.
  - apply Htail.
  - rewrite fmap_cons. cbn [app].
    rewrite iter_all_threads_continues, IH by done.
    unfold round. simpl. by rewrite cursor_param_continues.
Qed.

Lemma cursor_param_not_empty (cursor : option pystr) :
  cursor_param cursor ≠ Some [].
Proof. by destruct cursor as [[|c s]|]. Qed.

Lemma cursor_param_origin (responses : list (outcome page))
    (cursor : option pystr) (c : pystr) :
  Some c ∈ requests (iter_all_threads responses cursor) →
  cursor = Some c ∨
  ∃ data, Done data ∈ responses ∧ next_cursor data = Some c.
Proof.
  revert cursor.
  induction responses as [|[data|e] responses IH]; intros cursor; simpl.
  - rewrite list_elem_of_singleton. unfold cursor_param.
    destruct (cursor_truthy cursor); [by left | done].
  - assert (Some c = cursor_param cursor → cursor = Some c) as Hfirst.
    { unfold cursor_param. by destruct (cursor_truthy cursor). }
    destruct (page_items data) as [|t its]; simpl.
    { rewrite list_elem_of_singleton. intros ?. left. by apply Hfirst. }
    destruct (cursor_truthy (next_cursor data)).
    + unfold round. simpl. rewrite elem_of_cons. intros [?|Hin].
      { left. by apply Hfirst. }
      right. destruct (IH _ Hin) as [?|(data' & ? & ?)].
      * exists data. split; [apply list_elem_of_here|done].
      * exists data'. split; [by apply list_elem_of_further|done].
    + simpl. rewrite list_elem_of_singleton. intros ?. left. by apply Hfirst.
  - rewrite list_elem_of_singleton. unfold cursor_param.
    destruct (cursor_truthy cursor); [by left | done].
Qed.

Lemma requests_shape (responses : list (outcome page)) (cursor : option pystr) :
  ∃ rest,
    requests (iter_all_threads responses cursor) = cursor_param cursor :: rest ∧
    Forall (λ p : option pystr, p ≠ Some []) rest ∧
    length rest ≤ length responses ∧
    (ending (iter_all_threads responses cursor) ≠ Waiting →
     S (length rest) ≤ length responses).
Proof.
  revert cursor.
  induction responses as [|[data|e] responses IH]; intros cursor; simpl.
  - exists []. split; [done|]. split; [constructor|]. split; [done|]. done.
  - destruct (page_items data) as [|t its]; simpl.
    { exists []. split; [done|]. split; [constructor|]. simpl. lia. }
    destruct (cursor_truthy (next_cursor data)); simpl.
    + destruct (IH (next_cursor data)) as (rest & Hreq & Hrest & Hlen & Hend).
      rewrite Hreq.
      exists (cursor_param (next_cursor data) :: rest).
      split; [done|]. split.
      { constructor; [apply cursor_param_not_empty | done]. }
      simpl. split; [lia|]. intros Hw. specialize (Hend Hw). lia.
    + exists []. split; [done|]. split; [constructor|]. simpl. lia.
  - exists []. split; [done|]. split; [constructor|]. simpl. lia.
Qed.

(** X1. Whatever the remote end answers, the first request of the
    pagination carries no cursor, every later request carries a cursor
    that is not empty and that an earlier response of the run gave as its
    [next_cursor], and there is at most one request per response, plus one
    while the loop waits. *)
Theorem pagination_sends_only_returned_cursors
    (responses : list (outcome page)) :
  ∃ rest,
    requests (iter_all_threads responses None) = None :: rest ∧
    Forall (λ p : option pystr,
      ∃ c data, p = Some c ∧ c ≠ [] ∧
        Done data ∈ responses ∧ next_cursor data = Some c) rest ∧
    length rest ≤ length responses ∧
    (ending (iter_all_threads responses None) ≠ Waiting →
     S (length rest) ≤ length responses).
Proof.
  destruct (requests_shape responses None) as (rest & Hreq & Hrest & Hlen & Hend).
  exists rest. split; [exact Hreq|]. split; [|split; [exact Hlen | exact Hend]].
  apply Forall_forall. intros p Hp.
  (* a request after the first one is never without a cursor *)
  assert (∀ (rs : list (outcome page)) c0 p0 rest0,
    requests (iter_all_threads rs c0) = p0 :: rest0 → Forall is_Some rest0)
    as Hsome.
  { clear. induction rs as [|[data|e] rs IH]; intros c0 p0 rest0; simpl.
    - intros [= _ <-]. constructor.
    - destruct (page_items data) as [|t its]; simpl;
        [intros [= _ <-]; constructor|].
      destruct (cursor_truthy (next_cursor data)) eqn:Hc; simpl;
        [|intros [= _ <-]; constructor].
      unfold round. simpl. intros [= _ <-].
      destruct (requests_shape rs (next_cursor data)) as (rest1 & Hreq1 & _).
      rewrite Hreq1. constructor.
      + unfold cursor_param. rewrite Hc.
        destruct (next_cursor data); [by eexists | done].
      + by eapply IH.
    - intros [= _ <-]. constructor. }
  pose proof (Hsome _ _ _ _ Hreq) as Hall.
  assert (is_Some p) as [c ->].
  { eapply Forall_forall in Hall; [exact Hall | exact Hp]. }
  assert (Some c ∈ requests (iter_all_threads responses None)) as Hin.
  { rewrite Hreq. by apply list_elem_of_further. }
  destruct (cursor_param_origin _ _ _ Hin) as [?|(data & Hdata & Hc)]; [done|].
  exists c, data. split; [done|]. split; [|done].
  intros ->. eapply Forall_forall in Hrest; [|exact Hp]. by destruct Hrest.
Qed.

(** X2. The loop has no bound of its own: as long as every response has
    items and a cursor it goes on, and after [n] such responses it has
    yielded all their items, has sent [n + 1] requests and waits for the
    next response. *)
Theorem pagination_never_stops_by_itself (pages : list page) :
  Forall continues pages →
  iter_all_threads (Done <$> pages) None =
    FetchTrace (concat (page_items <$> pages))
      (None :: (next_cursor <$> pages)) Waiting.
Proof.
  intros Hpages.
  rewrite <- (app_nil_r (Done <$> pages)).
  by apply iter_all_threads_through.
Qed.

Lemma pagination_never_stops_by_itself_witness :
  ending (iter_all_threads
    (Done <$> [Page (Some [sample_thread "a" None]) (Some (py "x"));
               Page (Some [sample_thread "b" None]) (Some (py "x"))]) None)
    = Waiting.
Proof.
  rewrite (pagination_never_stops_by_itself
    [Page (Some [sample_thread "a" None]) (Some (py "x"));
     Page (Some [sample_thread "b" None]) (Some (py "x"))]).
  - reflexivity.
  - repeat constructor; simpl; discriminate.
Defined.

(** X3. An HTTP error on a later page fails the whole channel: the
    generator ends with the error after the requests made so far, and the
    collector returns the error, not the entries of the pages it had
    already read. *)
Theorem pagination_error_discards_channel
    (pre : list page) (e : exn) (rest : list (outcome page))
    (channel_id channel_name : json) :
  Forall continues pre →
  iter_all_threads ((Done <$> pre) ++ Raised e :: rest) None =
    FetchTrace (concat (page_items <$> pre))
      (None :: (next_cursor <$> pre)) (Failed e) ∧
  _collect_threads_for_channel_sync ((Done <$> pre) ++ Raised e :: rest)
    channel_id channel_name true = Some (Raised e).
Proof.
  intros Hpre.
  assert (iter_all_threads ((Done <$> pre) ++ Raised e :: rest) None =
    FetchTrace (concat (page_items <$> pre))
      (None :: (next_cursor <$> pre)) (Failed e)) as Hrun
    by (by apply iter_all_threads_through).
  split; [exact Hrun|].
  unfold _collect_threads_for_channel_sync. by rewrite Hrun.
Qed.

Lemma pagination_error_discards_channel_witness :
  _collect_threads_for_channel_sync
    ((Done <$> [Page (Some [sample_thread "a" None]) (Some (py "x"))]) ++
     Raised HTTPError :: [])
    (JStr (py "c1")) (JStr (py "Channel")) true = Some (Raised HTTPError).
Proof.
  apply (pagination_error_discards_channel
    [Page (Some [sample_thread "a" None]) (Some (py "x"))] HTTPError []
    (JStr (py "c1")) (JStr (py "Channel"))).
  repeat constructor; simpl; discriminate.
Defined.

(** *** The collector, over every sequence of responses *)

Lemma id_not_volatile : py "id" ∉ volatile_fields.
Proof.
  rewrite elem_of_volatile_fields.
  intros [H|[H|[H|[H|H]]]]; vm_compute in H; discriminate.
Qed.

Lemma yielded_origin (responses : list (outcome page)) (cursor : option pystr)
    (t : Thread) :
  t ∈ yielded (iter_all_threads responses cursor) →
  ∃ data, Done data ∈ responses ∧ t ∈ page_items data.
Proof.
  revert cursor.
  induction responses as [|[data|e] responses IH]; intros cursor; simpl.
  - by intros ?%elem_of_nil.
  - destruct (page_items data) as [|t0 its] eqn:Hits; simpl.
    { by intros ?%elem_of_nil. }
    assert (t ∈ t0 :: its → ∃ data0,
      Done data0 ∈ Done data :: responses ∧ t ∈ page_items data0) as Hhere.
    { intros Hin. exists data. split; [apply list_elem_of_here|by rewrite Hits]. }
    destruct (cursor_truthy (next_cursor data)); simpl; [|exact Hhere].
    rewrite elem_of_cons, elem_of_app.
    intros [->|[Hin|Hin]];
      [apply Hhere, list_elem_of_here
      |by apply Hhere, list_elem_of_further|].
    destruct (IH _ Hin) as (data' & ? & ?).
    exists data'. split; [by apply list_elem_of_further | done].
  - by intros ?%elem_of_nil.
Qed.

Lemma yielded_first (data : page) (rest : list (outcome page))
    (cursor : option pystr) :
  ∃ more,
    yielded (iter_all_threads (Done data :: rest) cursor) =
      page_items data ++ more.
Proof.
  simpl. destruct (page_items data) as [|t its]; [by exists []|].
  destruct (cursor_truthy (next_cursor data)); simpl.
  - by eexists.
  - exists []. by rewrite app_nil_r.
Qed.

Lemma collected_from_pages (responses : list (outcome page))
    (channel_id channel_name : json) (all_threads : bool)
    (results : list HarvestEntry) :
  _collect_threads_for_channel_sync responses channel_id channel_name
    all_threads = Some (Done results) →
  ∃ threads,
    results = omap (harvest_entry channel_id channel_name) threads ∧
    ∀ t, t ∈ threads → ∃ data, Done data ∈ responses ∧ t ∈ page_items data.
Proof.
  unfold _collect_threads_for_channel_sync. destruct all_threads.
  - destruct (ending (iter_all_threads responses None)); [|done..].
    intros [= <-]. eexists. split; [done|]. apply yielded_origin.
  - destruct responses as [|[data|e] responses]; [done| |done].
    intros [= <-]. exists (page_items data). split; [done|].
    intros t Ht. exists data. split; [apply list_elem_of_here | done].
Qed.

(** X4. Every entry a channel task returns, in either mode, carries the
    id and the name of its channel and a true [thread_id], which is the
    [id] its thread still has, and its thread has none of the five
    volatile fields. *)
Theorem collected_entries_are_sanitized (responses : list (outcome page))
    (channel_id channel_name : json) (all_threads : bool)
    (results : list HarvestEntry) :
  _collect_threads_for_channel_sync responses channel_id channel_name
    all_threads = Some (Done results) →
  Forall (λ e,
    Harvester.channel_id e = channel_id ∧
    Harvester.channel_name e = channel_name ∧
    truthy (thread_id e) = true ∧
    thread e !! py "id" = Some (thread_id e) ∧
    ∀ k, k ∈ volatile_fields → thread e !! k = None) results.
Proof.
  intros (threads & -> & _)%collected_from_pages.
  apply Forall_forall. intros e (t & _ & He)%list_elem_of_omap.
  pose proof (harvest_entry_Some _ _ _ _ He) as (Htruthy & Hid & Hthread).
  unfold harvest_entry in He. cbv zeta in He.
  destruct (truthy (get_default t (py "id") (JStr []))); [|done].
  injection He as <-. simpl in *.
  split; [done|]. split; [done|]. split; [done|]. split.
  - rewrite lookup_sanitize_other by apply id_not_volatile.
    unfold get_default in *. by destruct (t !! py "id").
  - intros k Hk. by apply lookup_sanitize_volatile.
Qed.

Lemma collected_entries_are_sanitized_witness :
  Forall (λ e, truthy (thread_id e) = true ∧
               thread e !! py "reply_count" = None)
    (omap (harvest_entry (JStr (py "c1")) (JStr (py "Channel")))
       [sample_thread "a" (Some 1%Z); sample_thread "" None]).
Proof.
  pose proof (collected_entries_are_sanitized
    [Done (Page (Some [sample_thread "a" (Some 1%Z); sample_thread "" None])
             (Some (py "x")))]
    (JStr (py "c1")) (JStr (py "Channel")) false _ eq_refl) as Hall.
  eapply Forall_impl; [exact Hall|].
  intros e (_ & _ & Htruthy & _ & Hvolatile). split; [exact Htruthy|].
  apply Hvolatile. apply list_elem_of_further, list_elem_of_further,
    list_elem_of_here.
Defined.

(** X5. What the latest-page mode returns for a channel is the beginning
    of what the full mode returns for it against the same responses. *)
Theorem latest_page_is_prefix_of_full (responses : list (outcome page))
    (channel_id channel_name : json) (latest full : list HarvestEntry) :
  _collect_threads_for_channel_sync responses channel_id channel_name false
    = Some (Done latest) →
  _collect_threads_for_channel_sync responses channel_id channel_name true
    = Some (Done full) →
  latest `prefix_of` full.
Proof.
  unfold _collect_threads_for_channel_sync.
  destruct responses as [|[data|e] responses]; [done| |done].
  intros [= <-]. cbv zeta.
  destruct (yielded_first data responses None) as [more Hmore].
  set (tr := iter_all_threads (Done data :: responses) None) in *.
  destruct (ending tr); [|done..]. intros [= <-].
  rewrite Hmore, omap_app. by eexists.
Qed.

Lemma latest_page_is_prefix_of_full_witness :
  omap (harvest_entry (JStr (py "c1")) (JStr (py "Channel")))
    [sample_thread "a" None]
  `prefix_of`
  omap (harvest_entry (JStr (py "c1")) (JStr (py "Channel")))
    [sample_thread "a" None; sample_thread "b" None].
Proof.
  apply (latest_page_is_prefix_of_full
    [Done (Page (Some [sample_thread "a" None]) (Some (py "x")));
     Done (Page (Some [sample_thread "b" None]) None)]
    (JStr (py "c1")) (JStr (py "Channel"))); reflexivity.
Defined.

(** X6. When the threads of every page have a string (or no) [id] and a
    numeric (or no) [created_at], every entry a channel task returns has
    a non-empty string [thread_id] and a numeric sort key: the entries
    are those the sort and the diff are proved for. *)
Theorem collected_entries_fit_data_model (responses : list (outcome page))
    (channel_id channel_name : json) (all_threads : bool)
    (results : list HarvestEntry) :
  (∀ data, Done data ∈ responses → Forall api_thread (page_items data)) →
  _collect_threads_for_channel_sync responses channel_id channel_name
    all_threads = Some (Done results) →
  Forall string_thread_id results ∧ Forall numeric_created_at results.
Proof.
  intros Hpages (threads & -> & Hthreads)%collected_from_pages.
  assert (Forall api_thread threads) as Hapi.
  { apply Forall_forall. intros t (data & Hdata & Ht)%Hthreads.
    specialize (Hpages data Hdata). by eapply Forall_forall in Hpages. }
  pose proof (collected_data_model channel_id channel_name threads Hapi) as Hall.
  split; eapply Forall_impl; try exact Hall; by intros e [? ?].
Qed.

Lemma collected_entries_fit_data_model_witness :
  Forall string_thread_id
    (omap (harvest_entry (JStr (py "c1")) (JStr (py "Channel")))
       [sample_thread "a" (Some 1%Z)]).
Proof.
  apply (collected_entries_fit_data_model
    [Done (Page (Some [sample_thread "a" (Some 1%Z)]) None)]
    (JStr (py "c1")) (JStr (py "Channel")) false).
  - intros data [= ->]%list_elem_of_singleton.
    constructor; [|constructor].
    split; right; vm_compute; eexists; reflexivity.
  - reflexivity.
Defined.


(** *** The harvest file, written and read back *)


Lemma entry_row_thread_id (e : HarvestEntry) :
  entry_row e !! py "thread_id" = Some (thread_id e).
Proof.
  unfold entry_row.
  rewrite !lookup_insert_ne by (vm_compute; discriminate).
  apply lookup_insert_eq.
Qed.

Lemma thread_id_values_written (results : list HarvestEntry) :
  thread_id_values (Rows (entry_row <$> results)) = thread_id <$> results.
Proof.
  unfold thread_id_values.
  induction results as [|e results IH]; [done|].
  rewrite !fmap_cons. cbn [omap list_omap]. rewrite entry_row_thread_id.
  by f_equal.
Qed.

(** X8. Reading back a harvest the harvester wrote gives the ids it
    wrote: the known ids are the non-empty strings among the [thread_id]s
    of the written entries. *)
Theorem written_harvest_reads_back (results : list HarvestEntry) :
  ∃ ids,
    load_existing_thread_ids (Rows (entry_row <$> results)) = Done ids ∧
    ∀ s, s ∈ ids ↔ s ≠ [] ∧ ∃ e, e ∈ results ∧ thread_id e = JStr s.
Proof.
  eexists. split; [reflexivity|]. intros s.
  rewrite elem_of_known_ids, thread_id_values_written.
  rewrite list_elem_of_fmap. naive_solver.
Qed.

Lemma filter_none {A} (P : A → Prop) `{∀ x, Decision (P x)} (l : list A) :
  Forall (λ x, ¬ P x) l → filter P l = [].
Proof.
  induction 1 as [|x l Hx _ IH]; [done|].
  by rewrite filter_cons_False.
Qed.

(** X9. A second run over the same threads reports nothing as new: after
    a run over entries of the data model that can be written, a run in
    which the tasks return the same lists, in whatever order they
    complete, writes an empty new-items file. *)
Theorem rerun_reports_nothing_new (auth_token : pystr) (fs : files)
    (per_channel per_channel' : list (list HarvestEntry)) :
  auth_token ≠ [] →
  newest_json fs ≠ Undecodable →
  per_channel ≡ₚ per_channel' →
  Forall string_thread_id (concat per_channel) →
  Forall numeric_created_at (concat per_channel) →
  Forall encodable_entry (concat per_channel) →
  ∃ fs1 results2,
    _main_async (Some auth_token) fs (Done <$> per_channel) = (fs1, Done ()) ∧
    _main_async (Some auth_token) fs1 (Done <$> per_channel') =
      (Files (Rows (entry_row <$> results2)) (Rows []), Done ()) ∧
    results2 ≡ₚ concat per_channel.
Proof.
  intros Htoken Hprevious Hperm Hids Hnum Henc.
  pose proof (concat_perm _ _ Hperm) as Hconcat.
  assert (∀ l, l ≡ₚ concat per_channel →
    Forall (λ e, hashable (thread_id e)) l) as Hhash.
  { intros l ->. eapply Forall_impl; [exact Hids|].
    apply string_thread_id_hashable. }
  destruct (main_async_data_model auth_token fs per_channel)
    as (ids & results & _ & _ & Hperm1 & _ & Hrun1); try done.
  { by apply Hhash. }
  rewrite Hrun1.
  destruct (main_async_data_model auth_token
    (Files (Rows (entry_row <$> results))
       (Rows (entry_row <$> filter (λ e, fresh ids e) results))) per_channel')
    as (ids2 & results2 & Hload2 & _ & Hperm2 & _ & Hrun2);
    try done; try (by rewrite <- Hconcat).
  { by apply Hhash. }
  rewrite <- Hconcat in Hperm2.
  exists (Files (Rows (entry_row <$> results))
       (Rows (entry_row <$> filter (λ e, fresh ids e) results))), results2.
  split; [done|]. split; [|done].
  rewrite Hrun2. rewrite filter_none; [done|].
  apply Forall_forall. intros e He Hfresh.
  rewrite Hperm2 in He.
  pose proof He as Hstr. eapply Forall_forall in Hstr; [|exact Hids].
  destruct Hstr as (c & s & Hid).
  unfold fresh in Hfresh. rewrite Hid in Hfresh.
  apply bool_decide_unpack in Hfresh. apply Hfresh.
  rewrite (elem_of_load_existing_thread_ids _ _ _ Hload2).
  cbn [newest_json]. rewrite thread_id_values_written.
  split; [done|]. rewrite <- Hid. apply list_elem_of_fmap_2.
  by rewrite Hperm1.
Qed.

Lemma rerun_reports_nothing_new_witness :
  ∃ fs1 results2,
    _main_async (Some (py "token")) (Files Missing Missing)
      (Done <$> [[sample_entry "c1" "a" (Some 1%Z)];
                 [sample_entry "c2" "b" (Some 2%Z)]]) = (fs1, Done ()) ∧
    _main_async (Some (py "token")) fs1
      (Done <$> [[sample_entry "c2" "b" (Some 2%Z)];
                 [sample_entry "c1" "a" (Some 1%Z)]]) =
      (Files (Rows (entry_row <$> results2)) (Rows []), Done ()).
Proof.
  destruct (rerun_reports_nothing_new (py "token") (Files Missing Missing)
    [[sample_entry "c1" "a" (Some 1%Z)]; [sample_entry "c2" "b" (Some 2%Z)]]
    [[sample_entry "c2" "b" (Some 2%Z)]; [sample_entry "c1" "a" (Some 1%Z)]])
    as (fs1 & results2 & Hrun1 & Hrun2 & _).
  - vm_compute. discriminate.
  - discriminate.
  - apply Permutation_swap.
  - repeat constructor; vm_compute; do 2 eexists; reflexivity.
  - repeat constructor; vm_compute; eexists; reflexivity.
  - repeat constructor; vm_compute; reflexivity.
  - exists fs1, results2. split; [exact Hrun1 | exact Hrun2].
Defined.

(** *** The two files of a run *)

(** X10. After every run that ends normally, the new-items file is a
    subsequence of the full-harvest file: it holds some of its entries, in
    the same order (the second sort changes nothing). *)
Theorem new_items_file_is_subsequence (auth_token : option pystr)
    (fs fs' : files) (completed : list (outcome (list HarvestEntry))) :
  _main_async auth_token fs completed = (fs', Done ()) →
  ∃ results new,
    full_harvest completed = Done results ∧
    newest_json fs' = Rows (entry_row <$> results) ∧
    new_json fs' = Rows (entry_row <$> new) ∧
    new `sublist_of` results.
Proof.
  intros (ids & results & new & _ & Hfull & Hnew & ->)%main_async_inv.
  exists results, new. split; [done|]. split; [done|]. split; [done|].
  by eapply rows_not_in_sublist.
Qed.

Lemma new_items_file_is_subsequence_witness :
  ∃ results new,
    full_harvest [Done [sample_entry "c1" "a" (Some 1%Z)];
                  Done [sample_entry "c2" "b" (Some 2%Z)]] = Done results ∧
    new `sublist_of` results.
Proof.
  destruct (new_items_file_is_subsequence (Some (py "token"))
    (Files (Rows [sample_row "a"]) Missing)
    (Files
       (Rows (entry_row <$> [sample_entry "c2" "b" (Some 2%Z);
                             sample_entry "c1" "a" (Some 1%Z)]))
       (Rows (entry_row <$> [sample_entry "c2" "b" (Some 2%Z)])))
    [Done [sample_entry "c1" "a" (Some 1%Z)];
     Done [sample_entry "c2" "b" (Some 2%Z)]])
    as (results & new & Hfull & _ & _ & Hsub).
  - vm_compute. reflexivity.
  - exists results, new. split; [exact Hfull | exact Hsub].
Defined.

(** X11. The two files are not written together. When the entries can
    be written and some merged entry has a list or a dict as its
    [thread_id], which cannot be looked up in the set of known ids, the
    run ends with [TypeError] after it has overwritten the full-harvest
    file and before it writes the new-items file, which stays as it was.
    When some entry cannot be written, the run ends with
    [UnicodeEncodeError] in the middle of writing the full-harvest file,
    which is left holding text that is not JSON, and the new-items file
    stays as it was. *)
Theorem unhashable_thread_id_leaves_new_items_stale (auth_token : pystr)
    (fs : files) (completed : list (outcome (list HarvestEntry)))
    (results : list HarvestEntry) :
  auth_token ≠ [] →
  newest_json fs ≠ Undecodable →
  full_harvest completed = Done results →
  (Forall encodable_entry results →
   (∃ e, e ∈ results ∧ ¬ hashable (thread_id e)) →
   _main_async (Some auth_token) fs completed =
     (Files (Rows (entry_row <$> results)) (new_json fs), Raised TypeError)) ∧
  (¬ Forall encodable_entry results →
   _main_async (Some auth_token) fs completed =
     (Files Malformed (new_json fs), Raised UnicodeEncodeError)).
Proof.
  intros Htoken Hprevious Hfull.
  destruct (load_existing_thread_ids_decodable _ Hprevious) as [ids Hload].
  unfold _main_async. destruct auth_token as [|c token]; [done|].
  rewrite Hload, Hfull. split.
  - intros Henc (e & He & Hid). rewrite write_json_entries by done.
    cbv zeta. unfold new_results.
    by rewrite (rows_not_in_unhashable _ _ _ He Hid).
  - intros Henc.
    destruct (write_json (entry_row <$> results)) as [f [[]|e]] eqn:Hwrite.
    + apply write_json_Done in Hwrite as [_ Hall]. destruct Henc.
      by apply Forall_fmap in Hall.
    + by apply write_json_Raised in Hwrite as (-> & -> & _).
Qed.

Lemma unhashable_thread_id_leaves_new_items_stale_witness :
  _main_async (Some (py "token")) (Files Missing (Rows [sample_row "old"]))
    [Done [Entry (JStr (py "c1")) (JStr (py "Channel")) (JArr [JNum 7])
       (<[py "id" := JArr [JNum 7]]> ∅)]] =
  (Files
     (Rows (entry_row <$>
        [Entry (JStr (py "c1")) (JStr (py "Channel")) (JArr [JNum 7])
       (<[py "id" := JArr [JNum 7]]> ∅)]))
     (Rows [sample_row "old"]),
   Raised TypeError).
Proof.
  apply (unhashable_thread_id_leaves_new_items_stale (py "token")
    (Files Missing (Rows [sample_row "old"]))
    [Done [Entry (JStr (py "c1")) (JStr (py "Channel")) (JArr [JNum 7])
       (<[py "id" := JArr [JNum 7]]> ∅)]]
    [Entry (JStr (py "c1")) (JStr (py "Channel")) (JArr [JNum 7])
       (<[py "id" := JArr [JNum 7]]> ∅)]).
  - vm_compute. discriminate.
  - discriminate.
  - vm_compute. reflexivity.
  - repeat constructor; vm_compute; reflexivity.
  - eexists. split; [apply list_elem_of_here|]. simpl. tauto.
Defined.

(** A thread whose title ends in a lone surrogate: the write of the
    harvest fails, the harvest file is lost and the new-items file is
    not written. *)
Example lone_surrogate_truncates_harvest :
  _main_async (Some (py "token")) (Files (Rows [sample_row "A"]) Missing)
    [Done [Entry (JStr (py "c1")) (JStr (py "Channel")) (JStr (py "t1"))
       (<[py "id" := JStr (py "t1")]>
          (<[py "title" := JStr [97%N; 55357%N]]> ∅))]] =
  (Files Malformed Missing, Raised UnicodeEncodeError).
Proof. vm_compute. reflexivity. Qed.

(** Timestamps that are strings are sorted as strings, newest first. *)
Example string_created_at_is_sorted :
  sort_by_created_at
    [Entry JNull JNull (JStr (py "a")) (<[py "created_at" := JStr (py "2024")]> ∅);
     Entry JNull JNull (JStr (py "b")) (<[py "created_at" := JStr (py "2025")]> ∅)] =
  Done
    [Entry JNull JNull (JStr (py "b")) (<[py "created_at" := JStr (py "2025")]> ∅);
     Entry JNull JNull (JStr (py "a")) (<[py "created_at" := JStr (py "2024")]> ∅)].
Proof. vm_compute. reflexivity. Qed.

(** A [created_at] that is [null] cannot be compared. *)
Example null_created_at_raises :
  sort_by_created_at
    [Entry JNull JNull (JStr (py "a")) (<[py "created_at" := JNull]> ∅);
     Entry JNull JNull (JStr (py "b")) (<[py "created_at" := JNum 5]> ∅)] =
  Raised TypeError.
Proof. vm_compute. reflexivity. Qed.

End Harvester.

(** ** The channel lister, [talent-channel.py] *)

Module Lister.

(** The sort key, [item.get("id", "")]. *)
Definition id_key (item : dict) : json := get_default item (py "id") (JStr []).

Definition id_string (item : dict) : pystr :=
  match id_key item with
  | JStr s => s
  | _ => []
  end.

(** [sorted(items, key=lambda item: item.get("id", ""))]. *)
Definition sorted_by_id (items : list dict) : outcome (list dict) :=
  py_sorted id_key false items.

(** The row written for an item: its [id] and its [name], each the empty
    string when the item has none. *)
Definition channel_row (item : dict) : dict :=
  <[py "id" := get_default item (py "id") (JStr [])]>
    (<[py "name" := get_default item (py "name") (JStr [])]> ∅).

(** [save_talent_channels_to_csv]: the file when it ends, and how it
    ends. The sort comes before the file is opened, so that its exception
    leaves the file as it was; the write is that of the harvester. *)
Definition save_talent_channels_to_csv (items : list dict)
    (previous : Harvester.file) : Harvester.file * outcome () :=
  match sorted_by_id items with
  | Raised e => (previous, Raised e)
  | Done sorted_items =>
      let payload := channel_row <$> sorted_items in
      Harvester.write_json payload
  end.

(** The items [sorted] goes through and calls the key function on, for
    the value [data.get("items") or []]: the key function needs dicts
    ([AttributeError] on anything else: an item of a list, a character of
    a string, a key of a dict), and a number cannot be iterated. *)
Fixpoint all_dicts (l : list json) : option (list dict) :=
  match l with
  | [] => Some []
  | JObj m :: l => cons m <$> all_dicts l
  | _ :: _ => None
  end.

Definition iterate_items (items : json) : outcome (list dict) :=
  if truthy items then
    match items with
    | JArr l =>
        match all_dicts l with
        | Some dicts => Done dicts
        | None => Raised AttributeError
        end
    | JStr _ | JObj _ => Raised AttributeError
    | _ => Raised TypeError
    end
  else Done [].

(** [main]: [response] is what [fetch_talent_channels] returns or raises,
    [previous] the channel snapshot on disk before the run. *)
Definition main (auth_token : option pystr) (response : outcome dict)
    (previous : Harvester.file) : Harvester.file * outcome () :=
  match auth_token with
  | None | Some [] => (previous, Raised SystemExit)
  | Some (_ :: _) =>
      match response with
      | Raised e => (previous, Raised e)
      | Done data =>
          let items := py_or (get data (py "items")) (JArr []) in
          match iterate_items items with
          | Raised e => (previous, Raised e)
          | Done items => save_talent_channels_to_csv items previous
          end
      end
  end.

(** The item has a string [id], or none. *)
Definition string_id (item : dict) : Prop := ∃ s, id_key item = JStr s.

(** The [id] and the [name] of the item can be encoded in UTF-8. *)
Definition encodable_channel (item : dict) : Prop :=
  encodable (JObj (channel_row item)) = true.

(** The order of the snapshot: by ascending [id]. *)
Definition id_ascending (a b : dict) : Prop :=
  str_ltb (id_string b) (id_string a) = false.

(** An item of the remote API with the given id and name, and a field
    the snapshot does not keep. *)
Definition sample_channel (id name : string) : dict :=
  <[py "id" := JStr (py id)]>
    (<[py "name" := JStr (py name)]> (<[py "icon" := JStr (py "i.png")]> ∅)).

(** ** Properties of the channel lister *)

(** *** The sort *)

Lemma stays_before_strings (a b : dict) :
  string_id a → string_id b →
  stays_before id_key false a b = true ↔ id_ascending a b.
Proof.
  intros [s Hs] [t Ht]. unfold stays_before, key_lt, id_ascending, id_string.
  rewrite Hs, Ht. cbn [py_lt].
  rewrite negb_true_iff, bool_decide_eq_false.
  destruct (str_ltb t s); split; intros; congruence.
Qed.

Lemma sorted_by_id_strings (items : list dict) :
  Forall string_id items →
  ∃ sorted_items,
    sorted_by_id items = Done sorted_items ∧
    sorted_items ≡ₚ items ∧
    StronglySorted id_ascending sorted_items.
Proof.
  intros Hids. unfold sorted_by_id.
  pose proof (py_sorted_comparable id_key false items
    (comparable_strings _ _ Hids)) as Hsort.
  eexists. split; [exact Hsort|].
  pose proof (py_sorted_perm _ _ _ _ Hsort) as Hperm.
  split; [exact Hperm|].
  eapply StronglySorted_impl_elem; [|by eapply py_sorted_sorted].
  intros a b Ha Hb. apply stays_before_strings.
  - rewrite Hperm in Ha. by eapply Forall_forall in Hids.
  - rewrite Hperm in Hb. by eapply Forall_forall in Hids.
Qed.

(** A list already in the order of its string ids is left as it is. *)
Lemma sorted_by_id_of_sorted (items : list dict) :
  Forall string_id items → StronglySorted id_ascending items →
  sorted_by_id items = Done items.
Proof.
  intros Hids Hsorted. unfold sorted_by_id.
  rewrite py_sorted_comparable by (by apply comparable_strings).
  f_equal. apply sort_by_of_sorted.
  eapply StronglySorted_impl_elem; [|exact Hsorted].
  intros a b Ha Hb. apply stays_before_strings; by eapply Forall_forall in Hids.
Qed.

(** *** The snapshot *)

Lemma channel_row_id_key (item : dict) : id_key (channel_row item) = id_key item.
Proof.
  unfold id_key at 1, channel_row, get_default at 1.
  by rewrite lookup_insert_eq.
Qed.

Lemma channel_row_name (item : dict) :
  channel_row item !! py "name" = Some (get_default item (py "name") (JStr [])).
Proof.
  unfold channel_row. rewrite lookup_insert_ne by (vm_compute; discriminate).
  apply lookup_insert_eq.
Qed.

Lemma channel_row_idemp (item : dict) :
  channel_row (channel_row item) = channel_row item.
Proof.
  unfold channel_row at 1. unfold get_default.
  rewrite channel_row_name. fold (get_default (channel_row item) (py "id") (JStr [])).
  fold (id_key (channel_row item)). by rewrite channel_row_id_key.
Qed.

Lemma channel_row_id_ascending (a b : dict) :
  id_ascending (channel_row a) (channel_row b) ↔ id_ascending a b.
Proof. unfold id_ascending, id_string. by rewrite !channel_row_id_key. Qed.

Lemma dom_channel_row (item : dict) :
  dom (channel_row item) = {[py "id"; py "name"]}.
Proof.
  unfold channel_row. rewrite !dom_insert_L, dom_empty_L. set_solver.
Qed.

Lemma save_Done (items : list dict) (previous f : Harvester.file) (u : ()) :
  save_talent_channels_to_csv items previous = (f, Done u) →
  ∃ sorted_items,
    sorted_by_id items = Done sorted_items ∧
    f = Harvester.Rows (channel_row <$> sorted_items) ∧
    Forall encodable_channel sorted_items.
Proof.
  unfold save_talent_channels_to_csv.
  destruct (sorted_by_id items) as [sorted_items|]; [|done]. cbv zeta.
  intros [-> Henc]%Harvester.write_json_Done.
  exists sorted_items. split; [done|]. split; [done|].
  by apply Forall_fmap in Henc.
Qed.

(** X12. For items whose [id] is a string (or is missing) and whose [id]
    and [name] can be written, the lister writes one row per item, the
    row of each item, in ascending order of [id], strings being compared
    code point by code point: the ids [c2], [c1], [c10] come out as [c1],
    [c10], [c2]. *)
Theorem snapshot_sorted_by_id (items : list dict) (previous : Harvester.file) :
  Forall string_id items →
  Forall encodable_channel items →
  ∃ sorted_items,
    save_talent_channels_to_csv items previous =
      (Harvester.Rows (channel_row <$> sorted_items), Done ()) ∧
    sorted_items ≡ₚ items ∧
    StronglySorted
      (λ a b, str_ltb (id_string b) (id_string a) = false)
      (channel_row <$> sorted_items) ∧
    (∀ a b c,
       id_key a = JStr (py "c2") → id_key b = JStr (py "c1") →
       id_key c = JStr (py "c10") →
       items = [a; b; c] →
       sorted_items = [b; c; a]).
Proof.
  intros Hids Henc.
  destruct (sorted_by_id_strings _ Hids) as (sorted_items & Hsort & Hperm & Hsorted).
  exists sorted_items. unfold save_talent_channels_to_csv. rewrite Hsort.
  cbv zeta. rewrite Harvester.write_json_encodable
    by (by apply Forall_fmap; rewrite Hperm).
  split; [done|]. split; [done|]. split.
  - eapply StronglySorted_fmap; [|exact Hsorted].
    intros a b. apply channel_row_id_ascending.
  - intros a b c Ha Hb Hc ->.
    assert (id_string a = py "c2") as Sa by (unfold id_string; by rewrite Ha).
    assert (id_string b = py "c1") as Sb by (unfold id_string; by rewrite Hb).
    assert (id_string c = py "c10") as Sc by (unfold id_string; by rewrite Hc).
    apply (StronglySorted_unique_strong id_ascending); [|done| |].
    + intros x y Hx Hy. rewrite Hperm in Hx. unfold id_ascending.
      set_unfold. intros Hxy Hyx.
      destruct Hx as [->|[->|[->|[]]]], Hy as [->|[->|[->|[]]]]; try done;
        rewrite ?Sa, ?Sb, ?Sc in Hxy, Hyx; vm_compute in Hxy, Hyx;
        discriminate.
    + unfold id_ascending.
      repeat (constructor; [repeat constructor; by rewrite ?Sa, ?Sb, ?Sc|]).
      constructor.
    + rewrite Hperm. by rewrite (Permutation_swap b a), (Permutation_swap c a).
Qed.

Lemma snapshot_sorted_by_id_witness :
  ∃ sorted_items,
    save_talent_channels_to_csv
      [sample_channel "c2" "B"; sample_channel "c1" "A"] Harvester.Missing =
      (Harvester.Rows (channel_row <$> sorted_items), Done ()) ∧
    sorted_items ≡ₚ [sample_channel "c2" "B"; sample_channel "c1" "A"].
Proof.
  destruct (snapshot_sorted_by_id
    [sample_channel "c2" "B"; sample_channel "c1" "A"] Harvester.Missing)
    as (sorted_items & Hsave & Hperm & _).
  - repeat constructor; eexists; vm_compute; reflexivity.
  - repeat constructor; vm_compute; reflexivity.
  - exists sorted_items. split; [exact Hsave | exact Hperm].
Defined.

(** X13. Every row of a snapshot the lister writes has the keys [id] and
    [name] and no other, with the values the item has for them (the empty
    string for a missing one); there is one row per item. *)
Theorem snapshot_rows_keep_id_and_name (items : list dict)
    (previous : Harvester.file) (rows : list dict) :
  save_talent_channels_to_csv items previous = (Harvester.Rows rows, Done ()) →
  length rows = length items ∧
  Forall (λ row,
    dom row = {[py "id"; py "name"]} ∧
    ∃ item, item ∈ items ∧
      row !! py "id" = Some (get_default item (py "id") (JStr [])) ∧
      row !! py "name" = Some (get_default item (py "name") (JStr []))) rows.
Proof.
  intros (sorted_items & Hsorted%py_sorted_perm & [= ->] & _)%save_Done.
  split; [by rewrite length_fmap, Hsorted|].
  apply Forall_forall. intros row (item & -> & Hitem)%list_elem_of_fmap.
  split; [apply dom_channel_row|].
  exists item. split; [by rewrite <- Hsorted|].
  split; [apply lookup_insert_eq | apply channel_row_name].
Qed.

Lemma snapshot_rows_keep_id_and_name_witness :
  Forall (λ row, dom row = {[py "id"; py "name"]})
    [channel_row (sample_channel "c1" "A")].
Proof.
  destruct (snapshot_rows_keep_id_and_name [sample_channel "c1" "A"]
    Harvester.Missing [channel_row (sample_channel "c1" "A")]) as [_ Hrows].
  - vm_compute. reflexivity.
  - eapply Forall_impl; [exact Hrows|]. by intros row [Hdom _].
Defined.

(** X14. The snapshot is a fixed point of the lister: given the rows of a
    snapshot it wrote from items with string ids, it writes the same
    snapshot again. *)
Theorem snapshot_is_fixed_point (items rows : list dict)
    (previous previous' : Harvester.file) :
  Forall string_id items →
  save_talent_channels_to_csv items previous = (Harvester.Rows rows, Done ()) →
  save_talent_channels_to_csv rows previous' = (Harvester.Rows rows, Done ()).
Proof.
  intros Hids (sorted_items & Hsort & [= ->] & Henc)%save_Done.
  destruct (sorted_by_id_strings _ Hids) as (sorted' & Hsort' & Hperm & Hsorted).
  rewrite Hsort in Hsort'. injection Hsort' as <-.
  unfold save_talent_channels_to_csv.
  rewrite sorted_by_id_of_sorted.
  - cbv zeta.
    assert (channel_row <$> (channel_row <$> sorted_items) =
      channel_row <$> sorted_items) as ->.
    { rewrite <- list_fmap_compose.
      apply list_fmap_ext; intros ? item ?; apply channel_row_idemp. }
    apply Harvester.write_json_encodable. by apply Forall_fmap.
  - apply Forall_fmap. rewrite Hperm. eapply Forall_impl; [exact Hids|].
    intros item [s Hs]. exists s. simpl. by rewrite channel_row_id_key.
  - eapply StronglySorted_fmap; [|exact Hsorted].
    intros a b. apply channel_row_id_ascending.
Qed.

Lemma snapshot_is_fixed_point_witness :
  save_talent_channels_to_csv
    [channel_row (sample_channel "c1" "A"); channel_row (sample_channel "c2" "B")]
    Harvester.Malformed =
  (Harvester.Rows
     [channel_row (sample_channel "c1" "A"); channel_row (sample_channel "c2" "B")],
   Done ()).
Proof.
  apply (snapshot_is_fixed_point
    [sample_channel "c2" "B"; sample_channel "c1" "A"] _
    Harvester.Missing Harvester.Malformed).
  - repeat constructor; eexists; vm_compute; reflexivity.
  - vm_compute. reflexivity.
Defined.

(** X15. A run of the lister that raises before it writes leaves the
    snapshot as it was: without a token, on an HTTP error, on items that
    cannot be iterated or are not dicts, or on ids that cannot be
    compared. The only other run that raises is one that got as far as
    the write and met an [id] or a [name] it could not encode: it ends
    with [UnicodeEncodeError] and leaves the snapshot holding text that
    is not JSON. *)
Theorem lister_failure_keeps_or_truncates_snapshot (auth_token : option pystr)
    (response : outcome dict) (previous fs : Harvester.file) (e : exn) :
  main auth_token response previous = (fs, Raised e) →
  fs = previous ∨
  (fs = Harvester.Malformed ∧ e = UnicodeEncodeError ∧
   ∃ data items sorted_items,
     response = Done data ∧
     iterate_items (py_or (get data (py "items")) (JArr [])) = Done items ∧
     sorted_by_id items = Done sorted_items ∧
     ¬ Forall encodable_channel items).
Proof.
  unfold main, save_talent_channels_to_csv.
  destruct auth_token as [[|c token]|];
    [by intros [= <- _]; left| |by intros [= <- _]; left].
  destruct response as [data|e']; [|by intros [= <- _]; left].
  cbv zeta. destruct (iterate_items _) as [items|e'] eqn:Hitems;
    [|by intros [= <- _]; left].
  destruct (sorted_by_id items) as [sorted_items|] eqn:Hsort;
    [|by intros [= <- _]; left].
  intros (-> & -> & Henc)%Harvester.write_json_Raised. right.
  split; [done|]. split; [done|].
  exists data, items, sorted_items. split; [done|]. split; [done|].
  split; [done|]. intros Hall. apply Henc, Forall_fmap.
  by rewrite (py_sorted_perm _ _ _ _ Hsort).
Qed.

Lemma lister_failure_keeps_or_truncates_snapshot_witness :
  main (Some (py "token"))
    (Done (<[py "items" := JArr [JObj (sample_channel "c1" "A"); JNum 3]]> ∅))
    (Harvester.Rows [channel_row (sample_channel "c0" "Z")]) =
  (Harvester.Rows [channel_row (sample_channel "c0" "Z")],
   Raised AttributeError) ∧
  (Harvester.Rows [channel_row (sample_channel "c0" "Z")] =
   Harvester.Rows [channel_row (sample_channel "c0" "Z")] ∨
   Harvester.Rows [channel_row (sample_channel "c0" "Z")] = Harvester.Malformed).
Proof.
  assert (main (Some (py "token"))
    (Done (<[py "items" := JArr [JObj (sample_channel "c1" "A"); JNum 3]]> ∅))
    (Harvester.Rows [channel_row (sample_channel "c0" "Z")]) =
    (Harvester.Rows [channel_row (sample_channel "c0" "Z")],
     Raised AttributeError)) as Hrun by (vm_compute; reflexivity).
  split; [exact Hrun|].
  destruct (lister_failure_keeps_or_truncates_snapshot _ _ _ _ _ Hrun)
    as [Hsame|[Htruncated _]]; [by left | by right].
Defined.

(** A channel whose name ends in a lone surrogate: the write fails and
    the snapshot is lost. *)
Example lone_surrogate_truncates_snapshot :
  main (Some (py "token"))
    (Done (<[py "items" :=
        JArr [JObj (<[py "id" := JStr (py "c1")]>
                      (<[py "name" := JStr [97%N; 55357%N]]> ∅))]]> ∅))
    (Harvester.Rows [channel_row (sample_channel "c0" "Z")]) =
  (Harvester.Malformed, Raised UnicodeEncodeError).
Proof. vm_compute. reflexivity. Qed.



End Lister.

(** ** The notifier, [notify.py] *)

Module Notify.

(** The character […] (U+2026). *)
Definition ellipsis : N := 8230%N.

(** The characters [str.strip()] removes: those Python holds to be
    whitespace. *)
Definition is_space (c : N) : bool :=
  ((9 <=? c) && (c <=? 13) || (28 <=? c) && (c <=? 32) ||
   (c =? 133) || (c =? 160) || (c =? 5760) ||
   (8192 <=? c) && (c <=? 8202) || (c =? 8232) || (c =? 8233) ||
   (c =? 8239) || (c =? 8287) || (c =? 12288))%N.

Fixpoint lstrip (s : pystr) : pystr :=
  match s with
  | c :: s' => if is_space c then lstrip s' else s
  | [] => []
  end.

Definition rstrip (s : pystr) : pystr := reverse (lstrip (reverse s)).

(** [s.strip()]. *)
Definition strip (s : pystr) : pystr := rstrip (lstrip s).

(** [MAX_DESC]. *)
Definition MAX_DESC : nat := 3800.

(** ["\n".join(desc_lines)], where [desc_lines] is [[body]] when [body] is
    true and is empty otherwise: [join] raises [TypeError] on an item
    that is not a [str]. *)
Definition join_desc_lines (body : json) : outcome pystr :=
  if truthy body then
    match body with
    | JStr s => Done s
    | _ => Raised TypeError
    end
  else Done [].

(** The cut of the description: [description[: MAX_DESC - 1] + "…"] when
    [len(description) > MAX_DESC]. *)
Definition cut_description (description : pystr) : pystr :=
  if bool_decide (MAX_DESC < length description)
  then take (MAX_DESC - 1) description ++ [ellipsis]
  else description.

(** [content]: the header if it is not empty, else the thread URL, else
    the empty string; cut to [content[:1999] + "…"] when
    [len(content) > 2000]. *)
Definition message_content (header : pystr) (thread_url : option pystr)
    : pystr :=
  let content :=
    match header with
    | _ :: _ => header
    | [] => default [] thread_url
    end in
  if bool_decide (2000 < length content)
  then take 1999 content ++ [ellipsis]
  else content.

(** [image_urls[0]] on a true value: the first item of a list, the first
    character of a string; a dict has no key [0], and a number cannot be
    indexed. *)
Inductive index_error : Type := NoKey | NotSubscriptable.

Definition first_item (image_urls : json) : index_error + json :=
  match image_urls with
  | JArr (url :: _) => inr url
  | JStr (c :: _) => inr (JStr [c])
  | JObj _ => inl NoKey
  | _ => inl NotSubscriptable
  end.

(** The values [build_discord_payload] reads off the entry before it
    builds anything. *)
Record entry_view : Type := EntryView {
  channel_name : json;
  thread : dict;
  thread_id : json;
  ja : dict;
  title : json;
  body : json;
  header : pystr;
}.

Section Payload.

(** How an f-string renders a value (Python's [format] with an empty
    format spec, which is [str(v)]): on a [str] it is the string itself. *)
Variable format : json → pystr.

(** The first lines of [build_discord_payload], down to [header]. *)
Definition read_entry (entry : dict) : outcome entry_view :=
  let channel_name := get_default entry (py "channel_name") (JStr []) in
  thread ← or_empty_dict (get entry (py "thread"));
  let thread_id := py_or (get entry (py "thread_id")) (get thread (py "id")) in
  translations ← or_empty_dict (get thread (py "translations"));
  ja ← or_empty_dict (get translations (py "ja"));
  let title :=
    py_or (py_or (get ja (py "title")) (get thread (py "title"))) (JStr []) in
  let body :=
    py_or (py_or (get ja (py "body")) (get thread (py "body"))) (JStr []) in
  let header :=
    strip (py "[" ++ format channel_name ++ py "] " ++ format title) in
  Done (EntryView channel_name thread thread_id ja title body header).

(** [thread_url]. *)
Definition thread_url_of (thread_id : json) : option pystr :=
  if truthy thread_id
  then Some (py "https://www.holoplus.com/app/threads/" ++ format thread_id)
  else None.

(** The embed, without its image. *)
Definition build_embed (v : entry_view) (description : pystr)
    (author_name author_icon : json) : dict :=
  let embed : dict :=
    <[py "title" :=
        py_or (py_or (title v) (channel_name v)) (JStr (py "Holoplus Thread"))]>
      (<[py "description" :=
          match description with
          | _ :: _ => JStr description
          | [] => JNull
          end]> ∅) in
  let embed : dict :=
    match thread_url_of (thread_id v) with
    | Some thread_url => <[py "url" := JStr thread_url]> embed
    | None => embed
    end in
  if truthy author_name || truthy author_icon
  then <[py "author" :=
          JObj (<[py "name" := author_name]>
                  (if truthy author_icon
                   then <[py "icon_url" := author_icon]> ∅
                   else ∅))]> embed
  else embed.

(** [build_discord_payload]: the payload and the voice URL. *)
Definition build_discord_payload (entry : dict) : outcome (dict * json) :=
  v ← read_entry entry;
  let image_urls := py_or (get (thread v) (py "image_urls")) (JArr []) in
  voice_clip ← or_empty_dict (get (thread v) (py "voice_clip"));
  let voice_url := get voice_clip (py "url") in
  description ← join_desc_lines (body v);
  let description := cut_description description in
  user ← or_empty_dict (get (thread v) (py "user"));
  let author_name := py_or (get user (py "name")) (channel_name v) in
  let author_icon := get user (py "icon_url") in
  let embed := build_embed v description author_name author_icon in
  embed ←
    (if truthy image_urls then
       match first_item image_urls with
       | inr url => Done (<[py "image" := JObj (<[py "url" := url]> ∅)]> embed)
       | inl NoKey => Raised KeyError
       | inl NotSubscriptable => Raised TypeError
       end
     else Done embed);
  let content := message_content (header v) (thread_url_of (thread_id v)) in
  let payload : dict := <[py "embeds" := JArr [JObj embed]]> ∅ in
  let payload : dict :=
    match content with
    | _ :: _ => <[py "content" := JStr content]> payload
    | [] => payload
    end in
  Done (payload, voice_url).

End Payload.

(** The [description] of the embed of a payload. *)
Definition embed_description (payload : dict) : option json :=
  match payload !! py "embeds" with
  | Some (JArr [JObj embed]) => embed !! py "description"
  | _ => None
  end.

(** A rendering for the examples: right on strings. *)
Definition format_strings (v : json) : pystr :=
  match v with
  | JStr s => s
  | _ => py "?"
  end.

(** An entry of [new.json] with the given title and body, and with the
    given Japanese title when there is one. *)
Definition sample_entry (ja_title : option pystr) (title body : pystr) : dict :=
  let thread : dict :=
    <[py "title" := JStr title]> (<[py "body" := JStr body]> ∅) in
  let thread : dict :=
    match ja_title with
    | Some t =>
        <[py "translations" :=
            JObj (<[py "ja" := JObj (<[py "title" := JStr t]> ∅)]> ∅)]> thread
    | None => thread
    end in
  <[py "channel_name" := JStr (py "ch")]>
    (<[py "thread_id" := JStr (py "t1")]>
      (<[py "thread" := JObj thread]> ∅)).


(** ** Properties of the notifier *)

Ltac distinct_keys := vm_compute; discriminate.

(** *** Stripping *)

Lemma lstrip_snoc_nonspace (s : pystr) (c : N) :
  is_space c = false → ∃ s', lstrip (s ++ [c]) = s' ++ [c].
Proof.
  intros Hc. induction s as [|d s [s' IH]]; simpl.
  - rewrite Hc. by exists [].
  - destruct (is_space d); [by exists s'|]. by exists (d :: s).
Qed.

Lemma rstrip_cons_nonspace (s : pystr) (c : N) :
  is_space c = false → ∃ s', rstrip (c :: s) = c :: s'.
Proof.
  intros Hc. unfold rstrip. rewrite reverse_cons.
  destruct (lstrip_snoc_nonspace (reverse s) c Hc) as [s' ->].
  exists (reverse s'). by rewrite reverse_app.
Qed.

Lemma strip_bracketed (name : pystr) :
  strip (py "[" ++ name ++ py "] " ++ []) = py "[" ++ name ++ py "]".
Proof.
  rewrite app_nil_r. unfold strip.
  change (py "[" ++ name ++ py "] ") with (91%N :: (name ++ [93%N; 32%N])).
  change (py "[" ++ name ++ py "]") with (91%N :: (name ++ [93%N])).
  cbn [lstrip]. change (is_space 91) with false. cbv iota.
  unfold rstrip.
  rewrite reverse_cons, reverse_app. change (reverse [93%N; 32%N]) with [32%N; 93%N].
  cbn [app lstrip]. change (is_space 32) with true. change (is_space 93) with false.
  cbv iota. rewrite reverse_cons, reverse_app, reverse_involutive.
  change (reverse [93%N]) with [93%N]. by rewrite reverse_singleton, <- app_assoc.
Qed.

Section PayloadFacts.

Variable format : json → pystr.
Hypothesis format_str : ∀ s, format (JStr s) = s.

Lemma read_entry_inv (entry : dict) (v : entry_view) :
  read_entry format entry = Done v →
  ∃ translations,
    or_empty_dict (get entry (py "thread")) = Done (thread v) ∧
    or_empty_dict (get (thread v) (py "translations")) = Done translations ∧
    or_empty_dict (get translations (py "ja")) = Done (ja v) ∧
    channel_name v = get_default entry (py "channel_name") (JStr []) ∧
    thread_id v =
      py_or (get entry (py "thread_id")) (get (thread v) (py "id")) ∧
    title v =
      py_or (py_or (get (ja v) (py "title")) (get (thread v) (py "title")))
        (JStr []) ∧
    body v =
      py_or (py_or (get (ja v) (py "body")) (get (thread v) (py "body")))
        (JStr []) ∧
    header v =
      strip (py "[" ++ format (channel_name v) ++ py "] " ++ format (title v)).
Proof.
  unfold read_entry. intros Hread.
  destruct (or_empty_dict (get entry (py "thread"))) as [t|] eqn:Ht;
    [|discriminate].
  cbn [mbind outcome_bind] in Hread.
  destruct (or_empty_dict (get t (py "translations"))) as [tr|] eqn:Htr;
    [|discriminate].
  cbn [mbind outcome_bind] in Hread.
  destruct (or_empty_dict (get tr (py "ja"))) as [j|] eqn:Hj; [|discriminate].
  cbn [mbind outcome_bind] in Hread.
  injection Hread as <-. exists tr. simpl. by rewrite Htr.
Qed.

Lemma header_nonempty (entry : dict) (v : entry_view) :
  read_entry format entry = Done v → header v ≠ [].
Proof.
  intros (_ & _ & _ & _ & _ & _ & _ & _ & ->)%read_entry_inv.
  unfold strip.
  change (py "[" ++ ?s) with (91%N :: s). cbn [lstrip].
  change (is_space 91) with false. cbv iota.
  by destruct (rstrip_cons_nonspace
    (format (channel_name v) ++ py "] " ++ format (title v)) 91%N eq_refl)
    as [s' ->].
Qed.

(** *** The header *)

Lemma py_or_str (t : pystr) (b : json) : t ≠ [] → py_or (JStr t) b = JStr t.
Proof. intros Ht. unfold py_or. simpl. by rewrite bool_decide_false. Qed.

Lemma get_Some (d : dict) (k : pystr) (x : json) :
  d !! k = Some x → get d k = x.
Proof. intros Hk. unfold get. by rewrite Hk. Qed.

Lemma get_None (d : dict) (k : pystr) : d !! k = None → get d k = JNull.
Proof. intros Hk. unfold get. by rewrite Hk. Qed.

(** C9, as the code has it. The title of the header is
    [translations.ja.title] when that is true (for a string: when it is
    not empty), else [thread.title] when that is true; a title that is
    missing, [null] or empty is passed over. When neither is true the
    header has no title: it is the channel name in its brackets. *)
Theorem header_fallback_chain (entry : dict) (v : entry_view) :
  read_entry format entry = Done v →
  (∃ translations,
     or_empty_dict (get entry (py "thread")) = Done (thread v) ∧
     or_empty_dict (get (thread v) (py "translations")) = Done translations ∧
     or_empty_dict (get translations (py "ja")) = Done (ja v)) ∧
  channel_name v = get_default entry (py "channel_name") (JStr []) ∧
  title v =
    py_or (py_or (get (ja v) (py "title")) (get (thread v) (py "title")))
      (JStr []) ∧
  header v =
    strip (py "[" ++ format (channel_name v) ++ py "] " ++ format (title v)) ∧
  (∀ x, ja v !! py "title" = Some x → truthy x = true →
     title v = x ∧
     header v =
       strip (py "[" ++ format (channel_name v) ++ py "] " ++ format x)) ∧
  (∀ x, truthy (get (ja v) (py "title")) = false →
     thread v !! py "title" = Some x → truthy x = true →
     title v = x ∧
     header v =
       strip (py "[" ++ format (channel_name v) ++ py "] " ++ format x)) ∧
  (truthy (get (ja v) (py "title")) = false →
   truthy (get (thread v) (py "title")) = false →
     title v = JStr [] ∧
     header v = py "[" ++ format (channel_name v) ++ py "]") ∧
  (∀ t, ja v !! py "title" = Some (JStr t) → t ≠ [] →
     header v = strip (py "[" ++ format (channel_name v) ++ py "] " ++ t)) ∧
  (∀ t, truthy (get (ja v) (py "title")) = false →
     thread v !! py "title" = Some (JStr t) → t ≠ [] →
     header v = strip (py "[" ++ format (channel_name v) ++ py "] " ++ t)).
Proof.
  intros (translations & Ht & Htr & Hja & Hcn & _ & Htitle & _ & Hheader)
    %read_entry_inv.
  split; [by exists translations|]. split; [done|]. split; [done|].
  split; [done|].
  rewrite Hheader, Htitle.
  assert (∀ x, ja v !! py "title" = Some x → truthy x = true →
    py_or (py_or (get (ja v) (py "title")) (get (thread v) (py "title")))
      (JStr []) = x) as Hfirst.
  { intros x Hjt Hx. rewrite (get_Some _ _ _ Hjt). unfold py_or.
    by rewrite !Hx. }
  assert (∀ x, truthy (get (ja v) (py "title")) = false →
    thread v !! py "title" = Some x → truthy x = true →
    py_or (py_or (get (ja v) (py "title")) (get (thread v) (py "title")))
      (JStr []) = x) as Hsecond.
  { intros x Hjt Htt Hx. rewrite (get_Some _ _ _ Htt). unfold py_or.
    by rewrite Hjt, !Hx. }
  assert (∀ t : pystr, t ≠ [] → truthy (JStr t) = true) as Hstr.
  { intros t Hne. simpl. by rewrite bool_decide_false. }
  split; [|split; [|split; [|split]]].
  - intros x Hjt Hx. by rewrite (Hfirst x Hjt Hx).
  - intros x Hjt Htt Hx. by rewrite (Hsecond x Hjt Htt Hx).
  - intros Hjt Htt. unfold py_or. rewrite Hjt, Htt. simpl.
    rewrite format_str. split; [done|]. apply strip_bracketed.
  - intros t Hjt Hne. by rewrite (Hfirst _ Hjt (Hstr t Hne)), format_str.
  - intros t Hjt Htt Hne.
    by rewrite (Hsecond _ Hjt Htt (Hstr t Hne)), format_str.
Qed.

(** *** The cuts *)

Lemma join_desc_lines_str (b : pystr) : join_desc_lines (JStr b) = Done b.
Proof. by destruct b. Qed.

Lemma length_cut (limit : nat) (s : pystr) :
  0 < limit → limit < length s →
  length (take (limit - 1) s ++ [ellipsis]) = limit.
Proof. intros. rewrite length_app, length_take. simpl. lia. Qed.

Lemma build_embed_description (v : entry_view) (description : pystr)
    (author_name author_icon : json) :
  build_embed format v description author_name author_icon !! py "description" =
    Some (match description with _ :: _ => JStr description | [] => JNull end).
Proof.
  unfold build_embed.
  destruct (truthy author_name || truthy author_icon),
    (thread_url_of format (thread_id v));
    rewrite ?(lookup_insert_ne _ (py "author")) by distinct_keys;
    rewrite ?(lookup_insert_ne _ (py "url")) by distinct_keys;
    rewrite (lookup_insert_ne _ (py "title")) by distinct_keys;
    apply lookup_insert_eq.
Qed.

Lemma build_discord_payload_inv (entry : dict) (v : entry_view)
    (payload : dict) (voice_url : json) :
  read_entry format entry = Done v →
  build_discord_payload format entry = Done (payload, voice_url) →
  ∃ description,
    join_desc_lines (body v) = Done description ∧
    embed_description payload =
      Some (match cut_description description with
            | _ :: _ => JStr (cut_description description)
            | [] => JNull
            end) ∧
    payload !! py "content" =
      Some (JStr (message_content (header v)
                    (thread_url_of format (thread_id v)))).
Proof.
  intros Hread Hbuild. pose proof (header_nonempty _ _ Hread) as Hheader.
  unfold build_discord_payload in Hbuild. rewrite Hread in Hbuild.
  cbn [mbind outcome_bind] in Hbuild.
  destruct (or_empty_dict (get (thread v) (py "voice_clip"))) as [voice_clip|];
    [|discriminate].
  cbn [mbind outcome_bind] in Hbuild.
  destruct (join_desc_lines (body v)) as [description|]; [|discriminate].
  cbn [mbind outcome_bind] in Hbuild.
  destruct (or_empty_dict (get (thread v) (py "user"))) as [user|];
    [|discriminate].
  cbn [mbind outcome_bind] in Hbuild.
  match type of Hbuild with
  | context [build_embed format v ?d ?n ?i] =>
      pose proof (build_embed_description v d n i) as Hdescription;
      set (embed0 := build_embed format v d n i) in *
  end.
  assert (∃ embed,
    embed !! py "description" = embed0 !! py "description" ∧
    payload =
      match message_content (header v) (thread_url_of format (thread_id v)) with
      | _ :: _ =>
          <[py "content" :=
              JStr (message_content (header v)
                      (thread_url_of format (thread_id v)))]>
            (<[py "embeds" := JArr [JObj embed]]> ∅)
      | [] => <[py "embeds" := JArr [JObj embed]]> ∅
      end) as (embed & Hembed & ->).
  { destruct (truthy (py_or (get (thread v) (py "image_urls")) (JArr []))).
    - destruct (first_item _) as [[]|url]; try discriminate.
      cbn [mbind outcome_bind] in Hbuild. injection Hbuild as <- _.
      eexists. split; [|reflexivity].
      by rewrite lookup_insert_ne by distinct_keys.
    - cbn [mbind outcome_bind] in Hbuild. injection Hbuild as <- _.
      by eexists. }
  exists description. split; [done|].
  assert (message_content (header v) (thread_url_of format (thread_id v)) ≠ [])
    as Hcontent.
  { unfold message_content. destruct (header v) as [|c h]; [done|].
    case_bool_decide; [|done]. by destruct (take 1999 (c :: h)). }
  destruct (message_content _ _) as [|c content] eqn:Hc; [done|].
  unfold embed_description.
  rewrite lookup_insert_ne by distinct_keys.
  rewrite lookup_insert_eq. rewrite Hembed, Hdescription.
  split; [done|]. apply lookup_insert_eq.
Qed.

(** C8. In every payload that is built, a body longer than 3800
    characters gives a description of its first 3799 characters and an
    ellipsis, 3800 characters in all, and a header longer than 2000
    characters a content of its first 1999 characters and an ellipsis,
    2000 characters in all: so it is for a body of 4000 characters and
    for a header of 2005. Shorter texts are not changed. *)
Theorem payload_truncation (entry : dict) (v : entry_view)
    (payload : dict) (voice_url : json) :
  read_entry format entry = Done v →
  build_discord_payload format entry = Done (payload, voice_url) →
  (∀ b, body v = JStr b →
     (length b = 4000 →
        embed_description payload = Some (JStr (take 3799 b ++ [ellipsis]))) ∧
     (3800 < length b →
        embed_description payload = Some (JStr (take 3799 b ++ [ellipsis])) ∧
        length (take 3799 b ++ [ellipsis]) = 3800) ∧
     (0 < length b ≤ 3800 → embed_description payload = Some (JStr b))) ∧
  (length (header v) = 2005 →
     payload !! py "content" =
       Some (JStr (take 1999 (header v) ++ [ellipsis]))) ∧
  (2000 < length (header v) →
     payload !! py "content" =
       Some (JStr (take 1999 (header v) ++ [ellipsis])) ∧
     length (take 1999 (header v) ++ [ellipsis]) = 2000) ∧
  (length (header v) ≤ 2000 → payload !! py "content" = Some (JStr (header v))).
Proof.
  intros Hread Hbuild.
  pose proof (header_nonempty _ _ Hread) as Hheader.
  destruct (build_discord_payload_inv _ _ _ _ Hread Hbuild)
    as (description & Hjoin & Hdescription & Hcontent).
  assert (∀ b, body v = JStr b → 3800 < length b →
    embed_description payload = Some (JStr (take 3799 b ++ [ellipsis])))
    as Hlong.
  { intros b Hb Hlen. rewrite Hb, join_desc_lines_str in Hjoin.
    injection Hjoin as <-. rewrite Hdescription. unfold cut_description.
    rewrite bool_decide_true by done.
    change (MAX_DESC - 1) with 3799. by destruct (take 3799 b). }
  assert (2000 < length (header v) →
    payload !! py "content" = Some (JStr (take 1999 (header v) ++ [ellipsis])))
    as Hlongheader.
  { intros Hlen. rewrite Hcontent. unfold message_content.
    destruct (header v) as [|c h]; [by destruct Hheader|].
    by rewrite bool_decide_true. }
  split; [|split; [|split]].
  - intros b Hb. split; [|split].
    + intros Hlen. apply Hlong; [done|]. rewrite Hlen. apply Nat.ltb_lt. reflexivity.
    + intros Hlen. split; [by apply Hlong|].
      apply (length_cut 3800); [apply Nat.lt_0_succ | done].
    + intros [Hpos Hlen]. rewrite Hb, join_desc_lines_str in Hjoin.
      injection Hjoin as <-. rewrite Hdescription. unfold cut_description.
      rewrite bool_decide_false by (unfold MAX_DESC; lia).
      destruct b; [simpl in Hpos; lia | done].
  - intros Hlen. apply Hlongheader. rewrite Hlen. apply Nat.ltb_lt. reflexivity.
  - intros Hlen. split; [by apply Hlongheader|].
    apply (length_cut 2000); [apply Nat.lt_0_succ | done].
  - intros Hlen. rewrite Hcontent. unfold message_content.
    destruct (header v) as [|c h]; [by destruct Hheader|].
    by rewrite bool_decide_false by lia.
Qed.

End PayloadFacts.


Lemma header_fallback_chain_witness :
  ∃ v,
    read_entry format_strings
      (sample_entry (Some (py "ja title")) (py "title") (py "body")) = Done v ∧
    title v = JStr (py "ja title") ∧
    header v = py "[ch] ja title".
Proof.
  destruct (read_entry format_strings
    (sample_entry (Some (py "ja title")) (py "title") (py "body")))
    as [v|e] eqn:Hread; [|vm_compute in Hread; discriminate].
  exists v. split; [reflexivity|].
  destruct (header_fallback_chain format_strings (λ s, eq_refl) _ v Hread)
    as (_ & _ & _ & _ & Hja & _).
  destruct (Hja (JStr (py "ja title"))) as [Htitle Hheader].
  - vm_compute in Hread. injection Hread as <-. vm_compute. reflexivity.
  - vm_compute. reflexivity.
  - split; [exact Htitle|]. rewrite Hheader.
    vm_compute in Hread. injection Hread as <-. vm_compute. reflexivity.
Defined.

(** C9, counterexample. A thread whose [translations.ja.title] is there
    and is the empty string: the header does not use it, it uses
    [thread.title]. *)
Lemma empty_ja_title_is_passed_over :
  ∃ v,
    read_entry format_strings
      (sample_entry (Some []) (py "title") (py "body")) = Done v ∧
    ja v !! py "title" = Some (JStr []) ∧
    thread v !! py "title" = Some (JStr (py "title")) ∧
    title v = JStr (py "title") ∧
    header v = py "[ch] title".
Proof.
  eexists. split; [vm_compute; reflexivity|].
  split; [vm_compute; reflexivity|]. split; [vm_compute; reflexivity|].
  split; vm_compute; reflexivity.
Qed.

Lemma payload_truncation_witness :
  ∃ payload voice_url,
    build_discord_payload format_strings
      (sample_entry None (py "title") (replicate 4000 97%N))
      = Done (payload, voice_url) ∧
    embed_description payload =
      Some (JStr (replicate 3799 97%N ++ [ellipsis])).
Proof.
  destruct (read_entry format_strings
    (sample_entry None (py "title") (replicate 4000 97%N)))
    as [v|e] eqn:Hread; [|vm_compute in Hread; discriminate].
  destruct (build_discord_payload format_strings
    (sample_entry None (py "title") (replicate 4000 97%N)))
    as [[payload voice_url]|e] eqn:Hbuild; [|vm_compute in Hbuild; discriminate].
  exists payload, voice_url. split; [reflexivity|].
  destruct (payload_truncation format_strings _ v payload voice_url Hread Hbuild)
    as [Hbody _].
  destruct (Hbody (replicate 4000 97%N)) as [H4000 _].
  - vm_compute in Hread. injection Hread as <-. vm_compute. reflexivity.
  - rewrite H4000; [|apply length_replicate].
    by rewrite take_replicate.
Defined.

(** ** Further properties of the notifier *)

Section MorePayloadFacts.

Variable format : json → pystr.

Lemma header_starts_with_bracket (entry : dict) (v : entry_view) :
  read_entry format entry = Done v → ∃ s, header v = 91%N :: s.
Proof.
  intros (_ & _ & _ & _ & _ & _ & _ & _ & ->)%read_entry_inv.
  unfold strip.
  change (py "[" ++ ?s) with (91%N :: s). cbn [lstrip].
  change (is_space 91) with false. cbv iota.
  apply rstrip_cons_nonspace. reflexivity.
Qed.

Lemma or_empty_dict_JObj (m : dict) : or_empty_dict (JObj m) = Done m.
Proof.
  unfold or_empty_dict. simpl. case_bool_decide as Hsize; [|done].
  simpl. by apply map_size_empty_inv in Hsize as ->.
Qed.

Lemma truthy_py_or (a b : json) : truthy (py_or a b) = truthy a || truthy b.
Proof. unfold py_or. by destruct (truthy a) eqn:Ha. Qed.

(** What a payload that is built is made of. *)
Lemma build_discord_payload_Done (entry : dict) (payload : dict)
    (voice_url : json) :
  build_discord_payload format entry = Done (payload, voice_url) →
  ∃ v voice_clip description user embed,
    read_entry format entry = Done v ∧
    or_empty_dict (get (thread v) (py "voice_clip")) = Done voice_clip ∧
    voice_url = get voice_clip (py "url") ∧
    join_desc_lines (body v) = Done description ∧
    or_empty_dict (get (thread v) (py "user")) = Done user ∧
    (embed =
       build_embed format v (cut_description description)
         (py_or (get user (py "name")) (channel_name v))
         (get user (py "icon_url")) ∨
     ∃ url,
       embed =
         <[py "image" := JObj (<[py "url" := url]> ∅)]>
           (build_embed format v (cut_description description)
              (py_or (get user (py "name")) (channel_name v))
              (get user (py "icon_url")))) ∧
    payload =
      <[py "content" :=
          JStr (message_content (header v)
                  (thread_url_of format (thread_id v)))]>
        (<[py "embeds" := JArr [JObj embed]]> ∅).
Proof.
  intros Hbuild. unfold build_discord_payload in Hbuild.
  destruct (read_entry format entry) as [v|] eqn:Hread; [|discriminate].
  pose proof (header_starts_with_bracket _ _ Hread) as [h Hheader].
  cbn [mbind outcome_bind] in Hbuild.
  destruct (or_empty_dict (get (thread v) (py "voice_clip")))
    as [voice_clip|] eqn:Hvoice; [|discriminate].
  cbn [mbind outcome_bind] in Hbuild.
  destruct (join_desc_lines (body v)) as [description|] eqn:Hjoin;
    [|discriminate].
  cbn [mbind outcome_bind] in Hbuild.
  destruct (or_empty_dict (get (thread v) (py "user"))) as [user|] eqn:Huser;
    [|discriminate].
  cbn [mbind outcome_bind] in Hbuild.
  assert (∃ c content,
    message_content (header v) (thread_url_of format (thread_id v)) =
      c :: content) as (c & content & Hcontent).
  { unfold message_content. rewrite Hheader.
    case_bool_decide; [|by eexists _, _].
    destruct (take 1999 (91%N :: h)); by eexists _, _. }
  rewrite Hcontent in Hbuild.
  exists v, voice_clip, description, user.
  destruct (truthy (py_or (get (thread v) (py "image_urls")) (JArr []))).
  - destruct (first_item _) as [[]|url]; try discriminate.
    cbn [mbind outcome_bind] in Hbuild. injection Hbuild as <- <-.
    eexists. do 5 (split; [assumption || reflexivity|]).
    split; [right; exists url; reflexivity | by rewrite Hcontent].
  - cbn [mbind outcome_bind] in Hbuild. injection Hbuild as <- <-.
    eexists. do 5 (split; [assumption || reflexivity|]).
    split; [left; reflexivity | by rewrite Hcontent].
Qed.

Lemma length_cut_description (description : pystr) :
  length (cut_description description) ≤ MAX_DESC ∧
  (description ≠ [] → cut_description description ≠ []).
Proof.
  unfold cut_description. case_bool_decide as Hlong.
  - split; [|by destruct (take (MAX_DESC - 1) description)].
    rewrite (length_cut MAX_DESC); [done| |done].
    unfold MAX_DESC. apply Nat.lt_0_succ.
  - split; [lia | done].
Qed.

Lemma length_message_content (c : N) (h : pystr) (thread_url : option pystr) :
  ∃ s, message_content (c :: h) thread_url = c :: s ∧ length s < 2000.
Proof.
  unfold message_content. case_bool_decide as Hlong.
  - exists (take 1998 h ++ [ellipsis]). split; [done|].
    rewrite length_app, length_take. cbn [length]. lia.
  - exists h. split; [done|]. cbn [length] in Hlong. lia.
Qed.

(** X17. Every payload that is built keeps within the limits it cuts to:
    the content is there, begins with the bracket of the header and has
    at most 2000 characters; the description of the embed is [null] or a
    text of 1 to 3800 characters. *)
Theorem payload_within_limits (entry : dict) (payload : dict)
    (voice_url : json) :
  build_discord_payload format entry = Done (payload, voice_url) →
  (∃ s, payload !! py "content" = Some (JStr (91%N :: s)) ∧
        length (91%N :: s) ≤ 2000) ∧
  (embed_description payload = Some JNull ∨
   ∃ d, embed_description payload = Some (JStr d) ∧
        1 ≤ length d ≤ 3800).
Proof.
  intros Hbuild.
  destruct (build_discord_payload_Done _ _ _ Hbuild)
    as (v & voice_clip & description & user & embed & Hread & _ & _ & _ & _
        & Hembed & ->).
  split.
  - destruct (header_starts_with_bracket _ _ Hread) as [h ->].
    destruct (length_message_content 91%N h
      (thread_url_of format (thread_id v))) as (s & -> & Hlen).
    exists s. split; [apply lookup_insert_eq|]. simpl. lia.
  - assert (embed_description
      (<[py "content" :=
           JStr (message_content (header v)
                   (thread_url_of format (thread_id v)))]>
         (<[py "embeds" := JArr [JObj embed]]> ∅)) =
      Some (match cut_description description with
            | _ :: _ => JStr (cut_description description)
            | [] => JNull
            end)) as ->.
    { unfold embed_description.
      rewrite lookup_insert_ne by distinct_keys. rewrite lookup_insert_eq.
      destruct Hembed as [->|[url ->]];
        rewrite ?(lookup_insert_ne _ (py "image")) by distinct_keys;
        apply build_embed_description. }
    destruct (length_cut_description description) as [Hlen _].
    destruct (cut_description description) as [|c d]; [by left|].
    right. eexists. split; [done|]. unfold MAX_DESC in Hlen. simpl in *. lia.
Qed.


Ltac embed_lookup :=
  unfold build_embed;
  destruct (thread_url_of _ _), (truthy _ || truthy _);
  repeat (rewrite lookup_insert_ne by distinct_keys);
  first [apply lookup_insert_eq | apply lookup_empty].

Lemma build_embed_title (v : entry_view) (description : pystr)
    (author_name author_icon : json) :
  build_embed format v description author_name author_icon !! py "title" =
    Some (py_or (py_or (title v) (channel_name v))
            (JStr (py "Holoplus Thread"))).
Proof. embed_lookup. Qed.

Lemma build_embed_url (v : entry_view) (description : pystr)
    (author_name author_icon : json) :
  build_embed format v description author_name author_icon !! py "url" =
    JStr <$> thread_url_of format (thread_id v).
Proof. embed_lookup. Qed.

Lemma build_embed_image (v : entry_view) (description : pystr)
    (author_name author_icon : json) :
  build_embed format v description author_name author_icon !! py "image" = None.
Proof. embed_lookup. Qed.

Lemma dom_build_embed (v : entry_view) (description : pystr)
    (author_name author_icon : json) :
  {[py "title"; py "description"]} ⊆
    dom (build_embed format v description author_name author_icon) ∧
  dom (build_embed format v description author_name author_icon) ⊆
    {[py "title"; py "description"; py "url"; py "author"]}.
Proof.
  unfold build_embed.
  destruct (thread_url_of _ _), (truthy _ || truthy _);
    rewrite ?dom_insert_L, ?dom_empty_L; set_solver.
Qed.

(** X18. A payload that is built has the keys [embeds] and [content] and
    no other, and one embed, which has a [title] that is true, a
    [description], and beyond them at most [url], [author] and [image].
    The voice URL is [thread.voice_clip.url] ([None] without one): it is
    returned beside the payload, which has no place for it. *)
Theorem payload_shape (entry : dict) (payload : dict) (voice_url : json) :
  build_discord_payload format entry = Done (payload, voice_url) →
  dom payload = {[py "embeds"; py "content"]} ∧
  (∃ embed t,
     payload !! py "embeds" = Some (JArr [JObj embed]) ∧
     {[py "title"; py "description"]} ⊆ dom embed ∧
     dom embed ⊆
       {[py "title"; py "description"; py "url"; py "author"; py "image"]} ∧
     embed !! py "title" = Some t ∧ truthy t = true) ∧
  (∃ v voice_clip,
     read_entry format entry = Done v ∧
     or_empty_dict (get (thread v) (py "voice_clip")) = Done voice_clip ∧
     voice_url = get voice_clip (py "url")).
Proof.
  intros Hbuild.
  destruct (build_discord_payload_Done _ _ _ Hbuild)
    as (v & voice_clip & description & user & embed & Hread & Hvoice & ->
        & _ & _ & Hembed & ->).
  split; [rewrite !dom_insert_L, dom_empty_L; set_solver|].
  split; [|by exists v, voice_clip].
  exists embed. eexists.
  split; [rewrite lookup_insert_ne by distinct_keys; apply lookup_insert_eq|].
  match type of Hembed with
  | context [build_embed format v ?d ?n ?i] =>
      pose proof (dom_build_embed v d n i) as [Hlow Hhigh];
      pose proof (build_embed_title v d n i) as Htitle
  end.
  assert (truthy (py_or (py_or (title v) (channel_name v))
    (JStr (py "Holoplus Thread"))) = true) as Htruthy.
  { rewrite truthy_py_or. apply orb_true_r. }
  destruct Hembed as [->|[url ->]].
  - split; [done|]. split; [set_solver|]. by split.
  - rewrite dom_insert_L. split; [set_solver|]. split; [set_solver|].
    split; [|done]. by rewrite lookup_insert_ne by distinct_keys.
Qed.

(** X19. The embed has a [url] exactly when the entry has a true
    [thread_id], or else its thread a true [id]: the thread page of that
    id. *)
Theorem embed_url_is_thread_page (entry : dict) (payload : dict)
    (voice_url : json) :
  build_discord_payload format entry = Done (payload, voice_url) →
  ∃ v embed,
    read_entry format entry = Done v ∧
    thread_id v =
      py_or (get entry (py "thread_id")) (get (thread v) (py "id")) ∧
    payload !! py "embeds" = Some (JArr [JObj embed]) ∧
    (truthy (thread_id v) = true →
     embed !! py "url" =
       Some (JStr (py "https://www.holoplus.com/app/threads/" ++
                   format (thread_id v)))) ∧
    (truthy (thread_id v) = false → embed !! py "url" = None).
Proof.
  intros Hbuild.
  destruct (build_discord_payload_Done _ _ _ Hbuild)
    as (v & voice_clip & description & user & embed & Hread & _ & _
        & _ & _ & Hembed & ->).
  exists v, embed. split; [done|].
  pose proof (read_entry_inv _ _ _ Hread)
    as (_ & _ & _ & _ & _ & Hid & _).
  split; [done|].
  split; [rewrite lookup_insert_ne by distinct_keys; apply lookup_insert_eq|].
  assert (embed !! py "url" = JStr <$> thread_url_of format (thread_id v))
    as ->.
  { destruct Hembed as [->|[url ->]];
      rewrite ?(lookup_insert_ne _ (py "image")) by distinct_keys;
      apply build_embed_url. }
  unfold thread_url_of. by split; intros ->.
Qed.

(** X20. An entry the notifier cannot read raises, and builds no
    payload: a [thread] that is true and is not a dict gives
    [AttributeError], and so does such a [voice_clip]; a body that is
    true and is not a string gives [TypeError]. *)
Theorem malformed_entry_builds_no_payload (entry : dict) :
  (∀ x, entry !! py "thread" = Some x → truthy x = true →
        (∀ m, x ≠ JObj m) →
        build_discord_payload format entry = Raised AttributeError) ∧
  (∀ v x, read_entry format entry = Done v →
        thread v !! py "voice_clip" = Some x → truthy x = true →
        (∀ m, x ≠ JObj m) →
        build_discord_payload format entry = Raised AttributeError) ∧
  (∀ v, read_entry format entry = Done v →
        is_Done (or_empty_dict (get (thread v) (py "voice_clip"))) →
        truthy (body v) = true → (∀ s, body v ≠ JStr s) →
        build_discord_payload format entry = Raised TypeError).
Proof.
  assert (∀ x, truthy x = true → (∀ m, x ≠ JObj m) →
    or_empty_dict x = Raised AttributeError) as Hnot_dict.
  { intros x Hx Hm. unfold or_empty_dict. rewrite Hx.
    destruct x; try done. by destruct (Hm m). }
  split; [|split].
  - intros x Hthread Hx Hm.
    unfold build_discord_payload, read_entry.
    by rewrite (get_Some _ _ _ Hthread), (Hnot_dict x Hx Hm).
  - intros v x Hread Hvoice Hx Hm.
    unfold build_discord_payload. rewrite Hread. cbn [mbind outcome_bind].
    by rewrite (get_Some _ _ _ Hvoice), (Hnot_dict x Hx Hm).
  - intros v Hread [voice_clip Hvoice] Hbody Hs.
    unfold build_discord_payload. rewrite Hread. cbn [mbind outcome_bind].
    rewrite Hvoice. cbn [mbind outcome_bind].
    unfold join_desc_lines. rewrite Hbody.
    destruct (body v); try done. by destruct (Hs s).
Qed.

(** X21. The notifier reads an entry of the harvester as the harvester
    wrote it: the channel name, the thread, and the [thread_id] when it
    is true, are those of the entry; and the entry can be read whenever
    its thread has no [translations]. *)
Theorem harvested_entry_read_back (e : Harvester.HarvestEntry) :
  (∀ v, read_entry format (Harvester.entry_row e) = Done v →
     channel_name v = Harvester.channel_name e ∧
     thread v = Harvester.thread e ∧
     (truthy (Harvester.thread_id e) = true →
      thread_id v = Harvester.thread_id e)) ∧
  (Harvester.thread e !! py "translations" = None →
   is_Done (read_entry format (Harvester.entry_row e))).
Proof.
  assert (or_empty_dict (get (Harvester.entry_row e) (py "thread")) =
    Done (Harvester.thread e)) as Hthread.
  { unfold get, Harvester.entry_row.
    rewrite !lookup_insert_ne by distinct_keys. rewrite lookup_insert_eq.
    apply or_empty_dict_JObj. }
  split.
  - intros v (translations & Ht & _ & _ & Hcn & Hid & _)%read_entry_inv.
    rewrite Hthread in Ht. injection Ht as Ht.
    split; [|split; [done|]].
    + rewrite Hcn. unfold get_default, Harvester.entry_row.
      rewrite lookup_insert_ne by distinct_keys. by rewrite lookup_insert_eq.
    + intros Htruthy. rewrite Hid. unfold get at 1.
      rewrite Harvester.entry_row_thread_id. unfold py_or. simpl.
      by rewrite Htruthy.
  - intros Hnone. unfold read_entry. rewrite Hthread.
    cbn [mbind outcome_bind]. rewrite (get_None _ _ Hnone).
    by eexists.
Qed.

End MorePayloadFacts.

Lemma payload_within_limits_witness :
  ∃ payload voice_url s,
    build_discord_payload format_strings
      (sample_entry None (replicate 3000 97%N) (py "body"))
      = Done (payload, voice_url) ∧
    payload !! py "content" = Some (JStr (91%N :: s)) ∧
    length (91%N :: s) ≤ 2000.
Proof.
  evar (payload : gmap (list N) json). evar (voice_url : json).
  assert (build_discord_payload format_strings (sample_entry None (replicate 3000 97%N) (py "body"))
    = Done (payload, voice_url)) as Hbuild
    by (subst payload voice_url; vm_compute; reflexivity).
  destruct (payload_within_limits format_strings _ payload voice_url Hbuild)
    as [(s & Hcontent & Hlen) _].
  exists payload, voice_url, s. split; [exact Hbuild|].
  split; [exact Hcontent | exact Hlen].
Defined.

Lemma payload_shape_witness :
  ∃ payload voice_url,
    build_discord_payload format_strings
      (sample_entry None (py "title") (py "body")) = Done (payload, voice_url) ∧
    dom payload = {[py "embeds"; py "content"]}.
Proof.
  evar (payload : gmap (list N) json). evar (voice_url : json).
  assert (build_discord_payload format_strings (sample_entry None (py "title") (py "body"))
    = Done (payload, voice_url)) as Hbuild
    by (subst payload voice_url; vm_compute; reflexivity).
  exists payload, voice_url. split; [exact Hbuild|].
  by destruct (payload_shape format_strings _ payload voice_url Hbuild)
    as [Hdom _].
Defined.

Lemma embed_url_is_thread_page_witness :
  ∃ v,
    read_entry format_strings (sample_entry None (py "title") (py "body"))
      = Done v ∧
    thread_id v = JStr (py "t1").
Proof.
  evar (payload : gmap (list N) json). evar (voice_url : json).
  assert (build_discord_payload format_strings (sample_entry None (py "title") (py "body"))
    = Done (payload, voice_url)) as Hbuild
    by (subst payload voice_url; vm_compute; reflexivity).
  destruct (embed_url_is_thread_page format_strings _ payload voice_url Hbuild)
    as (v & embed & Hread & Hid & _).
  exists v. split; [exact Hread|]. rewrite Hid.
  vm_compute in Hread. injection Hread as <-. vm_compute. reflexivity.
Defined.

Lemma malformed_entry_builds_no_payload_witness :
  build_discord_payload format_strings
    (<[py "channel_name" := JStr (py "ch")]>
       (<[py "thread" := JStr (py "not a dict")]> ∅))
    = Raised AttributeError.
Proof.
  apply (proj1 (malformed_entry_builds_no_payload format_strings _)
    (JStr (py "not a dict"))).
  - vm_compute. reflexivity.
  - vm_compute. reflexivity.
  - intros m. discriminate.
Defined.

Lemma harvested_entry_read_back_witness :
  is_Done (read_entry format_strings
    (Harvester.entry_row (Harvester.sample_entry "ch" "t1" (Some 5%Z)))).
Proof.
  apply (proj2 (harvested_entry_read_back format_strings
    (Harvester.sample_entry "ch" "t1" (Some 5%Z)))).
  vm_compute. reflexivity.
Defined.

End Notify.

(** ** Delivery to the webhook, [notify.py] *)

Module Delivery.

(** *** The name of the voice clip *)

Definition slash : N := 47%N.
Definition dot : N := 46%N.

Fixpoint lstrip_char (c : N) (s : pystr) : pystr :=
  match s with
  | x :: s' => if (x =? c)%N then lstrip_char c s' else s
  | [] => []
  end.

(** [s.rstrip(c)] for a character [c]. *)
Definition rstrip_char (c : N) (s : pystr) : pystr :=
  reverse (lstrip_char c (reverse s)).

(** [s.split(sep)] for a character [sep]: the pieces between the
    separators, one more than there are separators. *)
Fixpoint split (sep : N) (s : pystr) : list pystr :=
  match s with
  | [] => [[]]
  | x :: s' =>
      if (x =? sep)%N then [] :: split sep s'
      else match split sep s' with
           | p :: ps => (x :: p) :: ps
           | [] => [[x]]
           end
  end.

(** [pieces[-1]], on the list of pieces of a split, which is not empty. *)
Definition last_piece (pieces : list pystr) : pystr := default [] (last pieces).

(** The file name of the attachment, as [send_discord_webhook] works it
    out of the voice URL: [rstrip] is a method of [str], so that any
    other value raises [AttributeError]. *)
Definition voice_clip_filename (voice_url : json) : outcome pystr :=
  match voice_url with
  | JStr s =>
      let filename := py "voice-clip.m4a" in
      let url_path := last_piece (split slash (rstrip_char slash s)) in
      if bool_decide (dot ∈ url_path)
      then
        let ext := dot :: last_piece (split dot url_path) in
        Done (py "voice-clip" ++ ext)
      else Done filename
  | _ => Raised AttributeError
  end.

(** *** The requests *)

(** What a call of [requests] gives: a response, whose status is good or
    is an error status and which has a content, or an exception of the
    transport (no connection, a timeout, a URL it refuses). *)
Inductive http_result : Type :=
  | Response (ok : bool) (content : list N)
  | NoResponse.

(** The calls the notifier makes. *)
Inductive request : Type :=
  | PostJson (url : pystr) (payload : dict)
  | GetUrl (url : json)
  | PostFile (url : pystr) (filename : pystr) (content : list N).

(** How a run of the notifier stops, when it does not return. *)
Inductive stop : Type :=
  | Exit
  | RequestException
  | Error (e : exn)
  | FileNotFoundError
  | JSONDecodeError
  | ValueError.

(** One call: the [n]-th call of the run gets the result [net n];
    [raise_for_status] turns an error status into [HTTPError], which the
    notifier turns into [SystemExit]. *)
Definition call (net : nat → http_result) (sent : list request)
    (r : request) : list request * (stop + list N) :=
  (sent ++ [r],
   match net (length sent) with
   | Response true content => inr content
   | Response false _ => inl Exit
   | NoResponse => inl RequestException
   end).

(** [send_discord_webhook]: [sent] lists the calls made so far; the
    result is the calls made when the function ends, and how it ends.
    [requests.get] takes a URL that is a [str]: given any other value it
    raises, before anything is sent, one of the exceptions of [requests]
    for a URL it cannot use, which are [RequestException]s. *)
Definition send_discord_webhook (net : nat → http_result) (sent : list request)
    (webhook_url : pystr) (payload : dict) (voice_url : json)
    : list request * option stop :=
  match call net sent (PostJson webhook_url payload) with
  | (sent, inl s) => (sent, Some s)
  | (sent, inr _) =>
      if truthy voice_url then
        match voice_url with
        | JStr _ =>
            match call net sent (GetUrl voice_url) with
            | (sent, inl s) => (sent, Some s)
            | (sent, inr audio) =>
                match voice_clip_filename voice_url with
                | Raised e => (sent, Some (Error e))
                | Done filename =>
                    match call net sent
                            (PostFile webhook_url filename audio) with
                    | (sent, inl s) => (sent, Some s)
                    | (sent, inr _) => (sent, None)
                    end
                end
            end
        | _ => (sent, Some RequestException)
        end
      else (sent, None)
  end.

(** *** The run *)

(** [new.json] on disk: absent, text that is not JSON, a JSON value, or
    bytes that are not UTF-8 text. *)
Inductive json_file : Type :=
  | Absent
  | Garbled
  | Content (v : json)
  | Unreadable.

(** [load_new_threads]. *)
Definition load_new_threads (f : json_file) : stop + list json :=
  match f with
  | Absent => inl FileNotFoundError
  | Garbled => inl JSONDecodeError
  | Content (JArr data) => inr data
  | Content _ => inl ValueError
  | Unreadable => inl (Error UnicodeDecodeError)
  end.

(** The file the harvester leaves. *)
Definition written (f : Harvester.file) : json_file :=
  match f with
  | Harvester.Missing => Absent
  | Harvester.Malformed => Garbled
  | Harvester.Rows rows => Content (JArr (JObj <$> rows))
  | Harvester.Undecodable => Unreadable
  end.

Section Run.

Variable format : json → pystr.
Variable net : nat → http_result.

(** [build_discord_payload(entry)] on an item of the file: [entry.get]
    needs a dict. *)
Definition build (entry : json) : outcome (dict * json) :=
  match entry with
  | JObj m => Notify.build_discord_payload format m
  | _ => Raised AttributeError
  end.

(** The loop of [main] over the entries. *)
Fixpoint deliver (webhook_url : pystr) (sent : list request)
    (entries : list json) : list request * option stop :=
  match entries with
  | [] => (sent, None)
  | entry :: entries =>
      match build entry with
      | Raised e => (sent, Some (Error e))
      | Done (payload, voice_url) =>
          match send_discord_webhook net sent webhook_url payload voice_url with
          | (sent, Some s) => (sent, Some s)
          | (sent, None) => deliver webhook_url sent entries
          end
      end
  end.

(** [main]. *)
Definition main (webhook_url : option pystr) (new_json : json_file)
    : list request * option stop :=
  match webhook_url with
  | None | Some [] => ([], Some Exit)
  | Some ((_ :: _) as webhook_url) =>
      match load_new_threads new_json with
      | inl s => ([], Some s)
      | inr [] => ([], None)
      | inr ((_ :: _) as entries) => deliver webhook_url [] entries
      end
  end.

End Run.

(** The JSON payloads among the calls, in order. *)
Definition posted_payloads (sent : list request) : list dict :=
  omap (λ r, match r with PostJson _ payload => Some payload | _ => None end)
    sent.

(** A network on which every call succeeds. *)
Definition all_ok (n : nat) : http_result := Response true (py "audio").

(** ** Properties of the delivery *)

(** *** Splitting *)

Lemma split_no_sep (sep : N) (s : pystr) : sep ∉ s → split sep s = [s].
Proof.
  induction s as [|x s IH]; [done|].
  rewrite not_elem_of_cons. intros [Hx Hs]. simpl.
  rewrite (proj2 (N.eqb_neq x sep)) by done. by rewrite IH.
Qed.

Lemma split_app_sep (sep : N) (a b : pystr) :
  sep ∉ b → ∃ p ps, split sep (a ++ sep :: b) = p :: ps ++ [b].
Proof.
  intros Hb. induction a as [|x a (p & ps & IH)]; simpl.
  - rewrite N.eqb_refl, split_no_sep by done. by exists [], [].
  - rewrite IH. destruct (N.eqb x sep).
    + by exists [], (p :: ps).
    + by exists (x :: p), ps.
Qed.

Lemma last_piece_split_app_sep (sep : N) (a b : pystr) :
  sep ∉ b → last_piece (split sep (a ++ sep :: b)) = b.
Proof.
  intros Hb. destruct (split_app_sep sep a b Hb) as (p & ps & ->).
  unfold last_piece. by rewrite app_comm_cons, last_snoc.
Qed.

Lemma split_nonempty (sep : N) (s : pystr) : split sep s ≠ [].
Proof.
  destruct s as [|x s]; simpl; [done|].
  destruct (N.eqb x sep); [done|]. by destruct (split sep s).
Qed.

Lemma split_app_no_sep (sep : N) (a b : pystr) :
  sep ∉ b →
  split sep (a ++ b) =
    removelast (split sep a) ++ [last_piece (split sep a) ++ b].
Proof.
  intros Hb. induction a as [|x a IH]; simpl.
  - by rewrite split_no_sep.
  - rewrite IH. pose proof (split_nonempty sep a) as Hne.
    destruct (split sep a) as [|p0 [|p1 L]]; [done|..];
      destruct (N.eqb x sep); unfold last_piece; cbn [removelast app];
      rewrite ?last_cons_cons; try done.
Qed.

Lemma last_piece_split_app (sep : N) (a b : pystr) :
  sep ∉ b →
  last_piece (split sep (a ++ b)) = last_piece (split sep a) ++ b.
Proof.
  intros Hb. rewrite split_app_no_sep by done.
  unfold last_piece at 1. by rewrite last_snoc.
Qed.

Lemma split_pieces (sep : N) (s : pystr) :
  Forall (λ p, (sep ∉ p) ∧ (∀ x, x ∈ p → x ∈ s)) (split sep s).
Proof.
  induction s as [|x s IH]; simpl.
  - constructor; [|constructor]. split; [apply not_elem_of_nil | done].
  - assert (Forall (λ p, (sep ∉ p) ∧ (∀ y, y ∈ p → y ∈ x :: s)) (split sep s))
      as IH'.
    { eapply Forall_impl; [exact IH|]. intros p [? Hp].
      split; [done|]. intros y Hy. by apply list_elem_of_further, Hp. }
    destruct (N.eqb_spec x sep) as [->|Hx].
    + constructor; [|done]. split; [apply not_elem_of_nil|].
      by intros y ?%elem_of_nil.
    + pose proof (split_nonempty sep s) as Hne.
      destruct (split sep s) as [|p ps]; [done|].
      apply Forall_cons in IH' as [[Hp Hin] Hps]. constructor; [|done].
      split.
      * rewrite not_elem_of_cons. split; [congruence | done].
      * intros y [->|Hy]%elem_of_cons; [apply list_elem_of_here|by apply Hin].
Qed.

Lemma last_piece_split (sep : N) (s : pystr) :
  (sep ∉ last_piece (split sep s)) ∧
  ∀ x, x ∈ last_piece (split sep s) → x ∈ s.
Proof.
  pose proof (split_pieces sep s) as Hall. unfold last_piece.
  destruct (last (split sep s)) as [p|] eqn:Hlast; simpl.
  - apply last_Some_elem_of in Hlast.
    by eapply Forall_forall in Hall.
  - split; [apply not_elem_of_nil | by intros x ?%elem_of_nil].
Qed.

(** *** Stripping the slashes *)

Lemma lstrip_char_app (c : N) (l s : pystr) :
  Forall (λ x, x = c) l → head s ≠ Some c →
  lstrip_char c (l ++ s) = s.
Proof.
  intros Hl Hs. induction Hl as [|x l -> _ IH]; simpl.
  - destruct s as [|y s]; [done|]. simpl in *.
    destruct (N.eqb_spec y c) as [->|]; [done|done].
  - by rewrite N.eqb_refl.
Qed.

Lemma rstrip_char_app (c : N) (s l : pystr) :
  Forall (λ x, x = c) l → last s ≠ Some c →
  rstrip_char c (s ++ l) = s.
Proof.
  intros Hl Hs. unfold rstrip_char. rewrite reverse_app.
  rewrite lstrip_char_app.
  - apply reverse_involutive.
  - by apply Forall_reverse.
  - by rewrite head_reverse.
Qed.

Lemma rstrip_char_elem (c : N) (s : pystr) (x : N) :
  x ∈ rstrip_char c s → x ∈ s.
Proof.
  unfold rstrip_char. rewrite elem_of_reverse.
  assert (∀ t, x ∈ lstrip_char c t → x ∈ t) as Hsub.
  { induction t as [|y t IH]; simpl; [done|].
    destruct (N.eqb y c); [|done]. intros ?. by apply list_elem_of_further, IH. }
  intros ?%Hsub. by apply elem_of_reverse.
Qed.

(** *** The name of the voice clip *)

Lemma voice_clip_prefix (ext : pystr) :
  py "voice-clip" ++ dot :: ext = py "voice-clip." ++ ext.
Proof. reflexivity. Qed.

Lemma last_not_slash (pre seg : pystr) (c : N) :
  slash ∉ c :: seg → last (pre ++ c :: seg) ≠ Some slash.
Proof.
  intros Hseg Hlast. apply Hseg.
  rewrite last_app_cons in Hlast. by apply last_Some_elem_of.
Qed.

(** X22. The name of the attachment is flat: for every voice URL that is
    a string it is [voice-clip.m4a], or [voice-clip.] followed by
    characters of the URL among which there is no dot, and it has no
    slash in it. *)
Theorem voice_clip_filename_is_flat (s : pystr) :
  ∃ f,
    voice_clip_filename (JStr s) = Done f ∧
    (slash ∉ f) ∧
    (f = py "voice-clip.m4a" ∨
     ∃ ext, f = py "voice-clip." ++ ext ∧ (dot ∉ ext) ∧
            (∀ x, x ∈ ext → x ∈ s)).
Proof.
  unfold voice_clip_filename. cbv zeta.
  destruct (last_piece_split slash (rstrip_char slash s)) as [Hslash Hpath].
  set (url_path := last_piece (split slash (rstrip_char slash s))) in *.
  destruct (last_piece_split dot url_path) as [Hdot Hext].
  case_bool_decide.
  - eexists. split; [done|]. rewrite voice_clip_prefix. split.
    + rewrite elem_of_app. intros [Hin|Hin].
      * revert Hin. apply (bool_decide_unpack _). vm_compute. exact I.
      * apply Hslash. by apply Hext.
    + right. eexists. split; [done|]. split; [done|].
      intros x Hx. by eapply rstrip_char_elem, Hpath, Hext.
  - eexists. split; [done|]. split; [|by left].
    apply (bool_decide_unpack _). vm_compute. exact I.
Qed.

(** X23. The extension is what follows the last dot of the URL, its
    trailing slashes apart, when no slash follows that dot, whatever that
    text is; a URL whose last segment has no dot gets [.m4a]. *)
Theorem voice_clip_extension (pre seg slashes : pystr) :
  dot ∉ seg → slash ∉ seg → Forall (λ x, x = slash) slashes →
  voice_clip_filename (JStr (pre ++ dot :: seg ++ slashes)) =
    Done (py "voice-clip." ++ seg) ∧
  (seg ≠ [] →
   voice_clip_filename (JStr (pre ++ slash :: seg ++ slashes)) =
     Done (py "voice-clip.m4a")) ∧
  voice_clip_filename (JStr (seg ++ slashes)) = Done (py "voice-clip.m4a").
Proof.
  intros Hdot Hslash Hslashes.
  assert (slash ∉ dot :: seg) as Hds.
  { rewrite not_elem_of_cons. split; [|done]. by vm_compute. }
  split; [|split].
  - unfold voice_clip_filename. cbv zeta.
    rewrite (app_comm_cons seg), app_assoc.
    rewrite rstrip_char_app by (by try apply last_not_slash).
    rewrite last_piece_split_app by done.
    rewrite bool_decide_true
      by (rewrite elem_of_app; right; apply list_elem_of_here).
    by rewrite last_piece_split_app_sep.
  - intros Hne. unfold voice_clip_filename. cbv zeta.
    rewrite (app_comm_cons seg), app_assoc.
    rewrite rstrip_char_app.
    + rewrite last_piece_split_app_sep by done.
      by rewrite bool_decide_false.
    + done.
    + destruct seg as [|c seg]; [done|].
      change (pre ++ slash :: c :: seg) with (pre ++ [slash] ++ c :: seg).
      rewrite app_assoc. by apply last_not_slash.
  - unfold voice_clip_filename. cbv zeta.
    rewrite rstrip_char_app.
    + rewrite split_no_sep by done. unfold last_piece. simpl.
      by rewrite bool_decide_false.
    + done.
    + destruct seg as [|c seg]; [done|]. by apply (last_not_slash []).
Qed.

Lemma voice_clip_extension_witness :
  voice_clip_filename (JStr (py "https://cdn.example.com/v/clip.mp3?x=1//")) =
    Done (py "voice-clip.mp3?x=1").
Proof.
  apply (voice_clip_extension (py "https://cdn.example.com/v/clip")
    (py "mp3?x=1") (py "//")).
  - apply (bool_decide_unpack _). vm_compute. exact I.
  - apply (bool_decide_unpack _). vm_compute. exact I.
  - repeat constructor.
Defined.

(** *** The calls of one delivery *)

Lemma posted_payloads_app (sent sent' : list request) :
  posted_payloads (sent ++ sent') = posted_payloads sent ++ posted_payloads sent'.
Proof. apply omap_app. Qed.

Lemma send_discord_webhook_calls (net : nat → http_result)
    (sent : list request) (webhook_url : pystr) (payload : dict)
    (voice_url : json) (sent' : list request) (r : option stop) :
  send_discord_webhook net sent webhook_url payload voice_url = (sent', r) →
  ∃ calls,
    sent' = sent ++ PostJson webhook_url payload :: calls ∧
    posted_payloads calls = [] ∧
    length calls ≤ 2 ∧
    (truthy voice_url = false → calls = []).
Proof.
  unfold send_discord_webhook, call.
  assert (∀ calls : list request,
    posted_payloads calls = [] → length calls ≤ 2 →
    (truthy voice_url = false → calls = []) →
    ∀ out, (sent ++ PostJson webhook_url payload :: calls, out) = (sent', r) →
    ∃ calls0,
      sent' = sent ++ PostJson webhook_url payload :: calls0 ∧
      posted_payloads calls0 = [] ∧ length calls0 ≤ 2 ∧
      (truthy voice_url = false → calls0 = [])) as Hdone.
  { intros calls ? ? ? out [= <- _]. by exists calls. }
  destruct (net (length sent)) as [[] c|];
    [|apply (Hdone []); simpl; done || lia..].
  destruct (truthy voice_url); [|apply (Hdone []); simpl; done || lia].
  destruct voice_url as [| | |s| |];
    try (apply (Hdone []); simpl; done || lia).
  rewrite length_app. cbn [length].
  destruct (net _) as [[] audio|]; rewrite <- ?app_assoc;
    [|apply (Hdone [GetUrl (JStr s)]); simpl; done || lia..].
  destruct (voice_clip_filename (JStr s)) as [f|e];
    [|apply (Hdone [GetUrl (JStr s)]); simpl; done || lia].
  rewrite !length_app. cbn [length].
  destruct (net _) as [[] c'|]; rewrite <- ?app_assoc;
    apply (Hdone [GetUrl (JStr s); PostFile webhook_url f audio]);
    simpl; done || lia.
Qed.

(** X24. One delivery makes its calls in a fixed order and stops at the
    first that fails: the JSON message is always the first call; without
    a voice URL it is the only one; a delivery that returns has either
    made that one call, or three: the message, the download of the voice
    URL, and the upload, to the same webhook, of the content it
    downloaded, under the name worked out of the URL. *)
Theorem delivery_calls_in_order (net : nat → http_result)
    (sent : list request) (webhook_url : pystr) (payload : dict)
    (voice_url : json) (sent' : list request) (r : option stop) :
  send_discord_webhook net sent webhook_url payload voice_url = (sent', r) →
  (∃ calls,
     sent' = sent ++ PostJson webhook_url payload :: calls ∧
     length calls ≤ 2 ∧
     (truthy voice_url = false → calls = []) ∧
     ((∀ c, net (length sent) ≠ Response true c) → calls = [] ∧ r ≠ None)) ∧
  (r = None →
   (∃ c, net (length sent) = Response true c) ∧
   (truthy voice_url = false ∧ sent' = sent ++ [PostJson webhook_url payload] ∨
    truthy voice_url = true ∧
    ∃ f audio c',
      voice_clip_filename voice_url = Done f ∧
      net (S (length sent)) = Response true audio ∧
      net (S (S (length sent))) = Response true c' ∧
      sent' = sent ++ [PostJson webhook_url payload; GetUrl voice_url;
                       PostFile webhook_url f audio])).
Proof.
  intros Hsend.
  destruct (send_discord_webhook_calls _ _ _ _ _ _ _ Hsend)
    as (calls & Hsent & _ & Hlen & Hvoice).
  split.
  - exists calls. split; [done|]. split; [done|]. split; [done|].
    intros Hfail. revert Hsend. unfold send_discord_webhook, call.
    destruct (net (length sent)) as [[] c|]; [by destruct (Hfail c)|..];
      intros [= Hs <-]; (split; [|done]);
      rewrite Hsent in Hs; apply app_inv_head in Hs; by injection Hs.
  - intros ->. revert Hsend. unfold send_discord_webhook, call.
    destruct (net (length sent)) as [[] c|]; [|done..].
    split; [by eexists|]. revert Hsend.
    destruct (truthy voice_url) eqn:Htruthy; [|intros [= <-]; by left].
    destruct voice_url as [| | |s| |]; try done.
    rewrite length_app. cbn [length]. rewrite Nat.add_1_r.
    destruct (net (S (length sent))) as [[] audio|]; [|done..].
    destruct (voice_clip_filename (JStr s)) as [f|e]; [|done].
    rewrite !length_app. cbn [length]. rewrite !Nat.add_1_r.
    destruct (net (S (S (length sent)))) as [[] c'|]; [|done..].
    intros [= <-]. right. split; [done|].
    exists f, audio, c'. by rewrite <- !app_assoc.
Qed.

Lemma delivery_calls_in_order_witness :
  ∃ calls,
    (send_discord_webhook all_ok [] (py "https://hook") ∅
       (JStr (py "https://cdn/v.mp3"))).1 =
      [] ++ PostJson (py "https://hook") ∅ :: calls ∧
    length calls ≤ 2.
Proof.
  destruct (delivery_calls_in_order all_ok [] (py "https://hook") ∅
    (JStr (py "https://cdn/v.mp3")) _ _ eq_refl)
    as [(calls & Hsent & Hlen & _) _].
  exists calls. split; [exact Hsent | exact Hlen].
Defined.

(** A voice URL that is not a string: the message is sent, and the
    download is refused before any call is made. *)
Example voice_url_not_a_string :
  send_discord_webhook all_ok [] (py "https://hook") ∅ (JNum 5) =
    ([PostJson (py "https://hook") ∅], Some RequestException).
Proof. reflexivity. Qed.

(** *** The run *)

Section RunFacts.

Variable format : json → pystr.
Variable net : nat → http_result.

Lemma deliver_prefix (webhook_url : pystr) (entries : list json)
    (sent0 sent : list request) (r : option stop) :
  deliver format net webhook_url sent0 entries = (sent, r) →
  ∃ delivered rest calls,
    entries = delivered ++ rest ∧
    sent = sent0 ++ calls ∧
    Forall2 (λ entry payload, ∃ voice_url,
        build format entry = Done (payload, voice_url))
      delivered (posted_payloads calls) ∧
    (r = None → rest = []).
Proof.
  revert sent0. induction entries as [|entry entries IH]; intros sent0; simpl.
  - intros [= <- <-]. exists [], [], [].
    split; [done|]. split; [by rewrite app_nil_r|]. split; [constructor|done].
  - destruct (build format entry) as [[payload voice_url]|e] eqn:Hbuild.
    2: { intros [= <- <-]. exists [], (entry :: entries), [].
         split; [done|]. split; [by rewrite app_nil_r|].
         split; [constructor|done]. }
    destruct (send_discord_webhook net sent0 webhook_url payload voice_url)
      as [sent1 [s|]] eqn:Hsend;
      destruct (send_discord_webhook_calls _ _ _ _ _ _ _ Hsend)
        as (calls & -> & Hposted & _).
    + intros [= <- <-].
      exists [entry], entries, (PostJson webhook_url payload :: calls).
      split; [done|]. split; [done|]. split; [|done].
      cbn [posted_payloads omap list_omap]. fold (posted_payloads calls).
      rewrite Hposted. constructor; [by eexists | constructor].
    + intros (delivered & rest & calls' & -> & -> & Hall & Hrest)%IH.
      exists (entry :: delivered), rest,
        ((PostJson webhook_url payload :: calls) ++ calls').
      split; [done|]. split; [by rewrite <- app_assoc|]. split; [|done].
      rewrite posted_payloads_app.
      cbn [posted_payloads omap list_omap]. fold (posted_payloads calls).
      rewrite Hposted. constructor; [by eexists | done].
Qed.

(** X25. The notifier delivers in the order of the file and stops at the
    first failure: the JSON messages it has sent when it ends are the
    payloads of the first entries of the file, one each and in order, and
    of all the entries when it returns. Nothing is sent when the file
    cannot be read as a list, or when the list is empty. *)
Theorem deliveries_follow_file_order (webhook_url : pystr)
    (new_json : json_file) (sent : list request) (r : option stop) :
  webhook_url ≠ [] →
  main format net (Some webhook_url) new_json = (sent, r) →
  match load_new_threads new_json with
  | inl s => sent = [] ∧ r = Some s
  | inr entries =>
      ∃ delivered rest,
        entries = delivered ++ rest ∧
        Forall2 (λ entry payload, ∃ voice_url,
            build format entry = Done (payload, voice_url))
          delivered (posted_payloads sent) ∧
        (r = None → rest = []) ∧
        (entries = [] → sent = [])
  end.
Proof.
  intros Hurl. unfold main. destruct webhook_url as [|c url]; [done|].
  destruct (load_new_threads new_json) as [s|[|entry entries]].
  - by intros [= <- <-].
  - intros [= <- <-]. exists [], [].
    split; [done|]. split; [constructor|]. by split.
  - intros (delivered & rest & calls & Hsplit & -> & Hall & Hrest)
      %deliver_prefix.
    exists delivered, rest. split; [done|]. split; [done|]. by split.
Qed.

End RunFacts.

Lemma deliveries_follow_file_order_witness :
  ∃ delivered rest,
    [JObj (Notify.sample_entry None (py "title") (py "body")); JNum 3] =
      delivered ++ rest ∧
    length delivered =
      length (posted_payloads
        (main Notify.format_strings all_ok (Some (py "https://hook"))
           (Content (JArr
              [JObj (Notify.sample_entry None (py "title") (py "body"));
               JNum 3]))).1).
Proof.
  destruct (deliveries_follow_file_order Notify.format_strings all_ok
    (py "https://hook")
    (Content (JArr [JObj (Notify.sample_entry None (py "title") (py "body"));
                    JNum 3]))
    _ _ ltac:(vm_compute; discriminate) eq_refl)
    as (delivered & rest & Hsplit & Hall & _).
  exists delivered, rest. split; [exact Hsplit|].
  by eapply Forall2_length.
Defined.

End Delivery.
